(** * veo-task: replay of a transmission log on a 5x5 board

    Shallow embedding of [src/C/main.c] and the properties of its two
    engines: the sentinel scanner [next_move] and the lag-3 run filter
    in the body of [main].

    Conventions of the embedding.
    - A C [int] is a [Z]; the result of [+] and [-] on [int] is reduced
      to the 32-bit two's-complement range by [wrap_int].
    - A C [char] is a [Z] in [-128, 127] (plain [char] is signed, as on
      x86-64); the conversion from [int] is [char_of_int].
    - [yahdlc_get_data] and [YAHDLC_FLAG_SEQUENCE] come from the yahdlc
      library, which is outside this repository: they are parameters.
    - Fields named [applied] and [decodes] are ghost: they record the
      calls made to [update_player] and the values returned by
      [yahdlc_get_data]; no branch of the program reads them. *)

From Stdlib Require Import ZArith List Bool Lia.
Import ListNotations.
Local Open Scope Z_scope.

(* ================================================================= *)
(** * Part I: the program *)

(** ** Machine integers *)

Definition INT_MIN : Z := - 2 ^ 31.
Definition INT_MAX : Z := 2 ^ 31 - 1.

Definition wrap_int (z : Z) : Z := (z + 2 ^ 31) mod 2 ^ 32 - 2 ^ 31.
Definition int_add (a b : Z) : Z := wrap_int (a + b).
Definition int_sub (a b : Z) : Z := wrap_int (a - b).

(** Conversion of an [int] to [unsigned int], as done by the comparison
    [iter->end < iter->data_len]. *)
Definition to_uint (z : Z) : Z := z mod 2 ^ 32.

Definition is_char (c : Z) : Prop := -128 <= c <= 127.
Definition char_of_int (z : Z) : Z := (z + 128) mod 256 - 128.

(** ** Arrays of [int] and of [char] *)

Definition array_get (a : list Z) (i : Z) : Z := nth (Z.to_nat i) a 0.

Fixpoint list_set (a : list Z) (n : nat) (v : Z) : list Z :=
  match a, n with
  | [], _ => []
  | _ :: t, O => v :: t
  | h :: t, S n' => h :: list_set t n' v
  end.

Definition array_set (a : list Z) (i : Z) (v : Z) : list Z :=
  list_set a (Z.to_nat i) v.

(** ** The board: [clamp] and [update_player] *)

Record player_position_t : Type := { x : Z; y : Z }.

Definition clamp (value min max : Z) : Z :=
  if value <? min then min
  else if value >? max then max
  else value.

Definition update_player (player : player_position_t) (move : Z)
  : player_position_t :=
  match move with
  | 1 => {| x := x player; y := clamp (int_sub (y player) 1) 0 4 |}
  | 2 => {| x := x player; y := clamp (int_add (y player) 1) 0 4 |}
  | 3 => {| x := clamp (int_add (x player) 1) 0 4; y := y player |}
  | 4 => {| x := clamp (int_sub (x player) 1) 0 4; y := y player |}
  | _ => player
  end.

(** ** The run filter of [main] *)

(** The locals of [main] that the filter reads and writes. *)
Record sim_state : Type := {
  prev_moves : list Z;
  prev_idx : Z;
  player : player_position_t;
  applied : list Z
}.

(** [-1] is used to represent "no move". *)
Definition NO_MOVE : Z := -1.

Definition initial_state : sim_state :=
  {| prev_moves := [NO_MOVE; NO_MOVE; NO_MOVE];
     prev_idx := 0;
     player := {| x := 0; y := 4 |};
     applied := [] |}.

(** A call [update_player(&player, move)] made by [main]. *)
Definition call_update_player (s : sim_state) (move : Z) : sim_state :=
  {| prev_moves := prev_moves s;
     prev_idx := prev_idx s;
     player := update_player (player s) move;
     applied := applied s ++ [move] |}.

Definition three_in_a_row (pm : list Z) : bool :=
  (array_get pm 0 =? array_get pm 1) && (array_get pm 0 =? array_get pm 2).

(** Body of the [while (1)] loop after [next_move] has returned 1;
    [move] is [iter.output[0]]. *)
Definition loop_body (s : sim_state) (move : Z) : sim_state :=
  let old_move := char_of_int (array_get (prev_moves s) (prev_idx s)) in
  let s1 := if negb (old_move =? -1) then call_update_player s old_move else s in
  let pm := array_set (prev_moves s1) (prev_idx s1) move in
  let pm' :=
    if three_in_a_row pm
    then array_set (array_set (array_set pm 0 (-1)) 1 (-1)) 2 (-1)
    else pm in
  {| prev_moves := pm';
     prev_idx := Z.rem (int_add (prev_idx s1) 1) 3;
     player := player s1;
     applied := applied s1 |}.

(** One iteration of the final [for] loop. *)
Definition flush_step (s : sim_state) : sim_state :=
  let move := char_of_int (array_get (prev_moves s) (prev_idx s)) in
  let s1 := if negb (move =? -1) then call_update_player s move else s in
  {| prev_moves := prev_moves s1;
     prev_idx := Z.rem (int_add (prev_idx s1) 1) 3;
     player := player s1;
     applied := applied s1 |}.

(** [for (int i = 0; i < 3; i++)]: the counter runs from [0] up to [3]. *)
Fixpoint for_loop (n : nat) (s : sim_state) : sim_state :=
  match n with
  | O => s
  | S n' => for_loop n' (flush_step s)
  end.

Definition flush (s : sim_state) : sim_state := for_loop 3 s.

(** The filter on a given sequence of decoded moves. *)
Definition process_moves (s : sim_state) (moves : list Z) : sim_state :=
  fold_left loop_body moves s.

Definition run_moves (moves : list Z) : sim_state :=
  flush (process_moves initial_state moves).

(** The moves that reach [update_player], in order. *)
Definition effective_moves (moves : list Z) : list Z :=
  applied (run_moves moves).

(** ** The scanner: [move_iterator_t] and [next_move] *)

Record move_iterator_t : Type := {
  start : Z;
  end_ : Z;
  data : list Z;
  data_len : Z;
  output : list Z;
  output_len : Z
}.

(** What the program writes to standard output. *)
Inductive printed : Type :=
| Print_yahdlc_error (ret : Z)          (* "yahdlc error %i" *)
| Print_player_position (px py : Z).    (* "Player position is at (%i, %i)" *)

(** How a piece of the program ends: it returns to its caller, or it
    calls [exit], or the model runs out of [fuel]. *)
Inductive outcome (A : Type) : Type :=
| Returned (a : A)
| Exited (status : Z) (out : list printed) (log : list Z)
| Out_of_fuel.
Arguments Returned {A} a.
Arguments Exited {A} status out log.
Arguments Out_of_fuel {A}.

(** How the process ends. *)
Record termination : Type := {
  exit_status : Z;
  stdout : list printed;
  decode_log : list Z;
  final_state : option sim_state
}.

Section Scanner.

(** The interface of the yahdlc library. [frame] reads the [frame]
    member of a [yahdlc_control_t], [yahdlc_state] is the state the
    library keeps between calls. *)
Variable YAHDLC_FLAG_SEQUENCE : Z.
Variable yahdlc_control_t : Type.
Variable frame : yahdlc_control_t -> Z.
Variable yahdlc_state : Type.

(** What a call of [yahdlc_get_data] leaves behind: the value it
    returns, [*control], the destination buffer and [*dest_len]. *)
Record get_data_result : Type := {
  ret : Z;
  control_out : yahdlc_control_t;
  dest_out : list Z;
  dest_len_out : Z;
  state_out : yahdlc_state
}.

(** [yahdlc_get_data st control src src_len dest dest_len], where [src]
    is the buffer as seen from the pointer [iter->data + iter->start]. *)
Variable yahdlc_get_data :
  yahdlc_state -> yahdlc_control_t -> list Z -> Z -> list Z -> Z ->
  get_data_result.

(** What lives outside the iterator: the variable [control] of [main],
    the state of the library and the ghost log of decoder results. *)
Record world : Type := {
  control : yahdlc_control_t;
  lib_state : yahdlc_state;
  decodes : list Z
}.

Definition advance (iter : move_iterator_t) (new_start new_end : Z)
           (out : list Z) (out_len : Z) : move_iterator_t :=
  {| start := new_start; end_ := new_end;
     data := data iter; data_len := data_len iter;
     output := out; output_len := out_len |}.

(** The call [yahdlc_get_data(control, iter->data + iter->start,
    iter->end + 1 - iter->start, iter->output, &(iter->output_len))]. *)
Definition decode_span (iter : move_iterator_t) (w : world)
  : get_data_result :=
  yahdlc_get_data
    (lib_state w) (control w)
    (skipn (Z.to_nat (start iter)) (data iter))
    (to_uint (int_sub (int_add (end_ iter) 1) (start iter)))
    (output iter) (output_len iter).

(** The [while] loop of [next_move], one iteration per unit of fuel. *)
Fixpoint next_move_loop (fuel : nat) (iter : move_iterator_t) (w : world)
  : outcome (Z * move_iterator_t * world) :=
  match fuel with
  | O => Out_of_fuel
  | S fuel' =>
    if to_uint (end_ iter) <? data_len iter then
      if array_get (data iter) (end_ iter) =? YAHDLC_FLAG_SEQUENCE then
        let r := decode_span iter w in
        let log := decodes w ++ [ret r] in
        if ret r <? 0 then
          Exited 1 [Print_yahdlc_error (ret r)] log
        else
          let iter' := advance iter (int_add (end_ iter) 1)
                               (int_add (end_ iter) 2)
                               (dest_out r) (dest_len_out r) in
          let w' := {| control := control_out r;
                       lib_state := state_out r;
                       decodes := log |} in
          if negb (frame (control w') =? 0) then
            next_move_loop fuel' iter' w'
          else
            Returned (1, iter', w')
      else
        next_move_loop fuel'
          (advance iter (start iter) (int_add (end_ iter) 1)
                   (output iter) (output_len iter)) w
    else
      Returned (0, iter, w)
  end.

(** Every iteration moves [end] forward, so [data_len + 1] iterations
    are enough (see [next_move_loop_enough_fuel]). *)
Definition next_move (iter : move_iterator_t) (w : world)
  : outcome (Z * move_iterator_t * world) :=
  next_move_loop (S (Z.to_nat (data_len iter))) iter w.

(** The [while (1)] loop of [main]. *)
Fixpoint main_loop (fuel : nat) (iter : move_iterator_t) (w : world)
         (s : sim_state) : outcome (sim_state * move_iterator_t * world) :=
  match fuel with
  | O => Out_of_fuel
  | S fuel' =>
    match next_move iter w with
    | Returned (run, iter', w') =>
      if run =? 0 then Returned (s, iter', w')
      else
        let move := array_get (output iter') 0 in
        let s' := loop_body s move in
        main_loop fuel'
          (advance iter' (start iter') (end_ iter') (output iter') 0) w' s'
    | Exited status out log => Exited status out log
    | Out_of_fuel => Out_of_fuel
    end
  end.

(** [main], from the point where the file has been read: [buffer] is
    its content, [output_buffer] and [control0] are whatever the
    uninitialised [output_buffer] and [control] hold. *)
Definition main (buffer output_buffer : list Z)
           (control0 : yahdlc_control_t) (lib0 : yahdlc_state)
  : option termination :=
  let filelen := Z.of_nat (length buffer) in
  let iter := {| start := 0; end_ := 1;
                 data := buffer; data_len := to_uint filelen;
                 output := output_buffer; output_len := 0 |} in
  let w := {| control := control0; lib_state := lib0; decodes := [] |} in
  match main_loop (S (length buffer)) iter w initial_state with
  | Returned (s, _, w') =>
    let s' := flush s in
    Some {| exit_status := 0;
            stdout := [Print_player_position (x (player s')) (y (player s'))];
            decode_log := decodes w';
            final_state := Some s' |}
  | Exited status out log =>
    Some {| exit_status := status; stdout := out;
            decode_log := log; final_state := None |}
  | Out_of_fuel => None
  end.

(** The sequence of moves that the iterator yields to [main]: the
    loop of [main] without its body. *)
Fixpoint decoded_moves (fuel : nat) (iter : move_iterator_t) (w : world)
  : outcome (list Z * move_iterator_t * world) :=
  match fuel with
  | O => Out_of_fuel
  | S fuel' =>
    match next_move iter w with
    | Returned (run, iter', w') =>
      if run =? 0 then Returned ([], iter', w')
      else
        let move := array_get (output iter') 0 in
        match decoded_moves fuel'
                (advance iter' (start iter') (end_ iter') (output iter') 0)
                w' with
        | Returned (ms, iter'', w'') => Returned (move :: ms, iter'', w'')
        | Exited status out log => Exited status out log
        | Out_of_fuel => Out_of_fuel
        end
    | Exited status out log => Exited status out log
    | Out_of_fuel => Out_of_fuel
    end
  end.

End Scanner.

Arguments ret {_ _} _.
Arguments control_out {_ _} _.
Arguments dest_out {_ _} _.
Arguments dest_len_out {_ _} _.
Arguments state_out {_ _} _.
Arguments control {_ _} _.
Arguments lib_state {_ _} _.
Arguments decodes {_ _} _.

(** ** Notions used to state the properties *)

(** The 5x5 board. *)
Definition in_grid (p : player_position_t) : Prop :=
  0 <= x p <= 4 /\ 0 <= y p <= 4.

(** Positions on which [x + 1], [x - 1], [y + 1] and [y - 1] do not
    overflow an [int]. *)
Definition no_overflow (p : player_position_t) : Prop :=
  INT_MIN < x p < INT_MAX /\ INT_MIN < y p < INT_MAX.

(** The four directions. *)
Definition recognized (c : Z) : Prop := c = 1 \/ c = 2 \/ c = 3 \/ c = 4.

(** A move code that the window can tell from an empty slot. *)
Definition move_code (c : Z) : Prop := is_char c /\ c <> NO_MOVE.

(** The slots that hold a move, in the order given. *)
Definition present (slots : list Z) : list Z :=
  filter (fun c => negb (c =? NO_MOVE)) slots.

(** The three slots read from the cursor on: oldest first. *)
Definition window (s : sim_state) : list Z :=
  [ array_get (prev_moves s) (prev_idx s);
    array_get (prev_moves s) (Z.rem (prev_idx s + 1) 3);
    array_get (prev_moves s) (Z.rem (prev_idx s + 2) 3) ].

(** The slot that the next move overwrites. *)
Definition evicted (s : sim_state) : Z :=
  array_get (prev_moves s) (prev_idx s).

(** The shape of the filter's locals at the head of either loop. *)
Definition well_formed (s : sim_state) : Prop :=
  length (prev_moves s) = 3%nat
  /\ 0 <= prev_idx s < 3
  /\ Forall is_char (prev_moves s).

(** The triple-discard rule in the words of the specification: reading
    the moves in order, three consecutive identical codes are removed
    as soon as they are complete; every other code is kept. *)
Fixpoint discard_triples (moves : list Z) : list Z :=
  match moves with
  | a :: ((b :: c :: rest) as tl) =>
    if (a =? b) && (a =? c) then discard_triples rest
    else a :: discard_triples tl
  | _ => moves
  end.

(** What the window holds when [q] are the moves received since the
    last discarded triple that have not been applied yet. *)
Definition padded (q : list Z) : list Z :=
  match q with
  | [] => [NO_MOVE; NO_MOVE; NO_MOVE]
  | [a] => [NO_MOVE; NO_MOVE; a]
  | [a; b] => [NO_MOVE; a; b]
  | _ => q
  end.

(** The move that points the other way. *)
Definition opposite (m : Z) : Z :=
  match m with
  | 1 => 2
  | 2 => 1
  | 3 => 4
  | 4 => 3
  | _ => m
  end.

(** The cell that a move points to, on the board or not. *)
Definition target (p : player_position_t) (m : Z) : player_position_t :=
  match m with
  | 1 => {| x := x p; y := y p - 1 |}
  | 2 => {| x := x p; y := y p + 1 |}
  | 3 => {| x := x p + 1; y := y p |}
  | 4 => {| x := x p - 1; y := y p |}
  | _ => p
  end.

(** [l1] is [l2] with some elements left out. *)
Inductive subsequence : list Z -> list Z -> Prop :=
| subsequence_nil : subsequence [] []
| subsequence_keep (a : Z) (l1 l2 : list Z) :
    subsequence l1 l2 -> subsequence (a :: l1) (a :: l2)
| subsequence_skip (a : Z) (l1 l2 : list Z) :
    subsequence l1 l2 -> subsequence l1 (a :: l2).

(** Three consecutive identical codes somewhere in the sequence. *)
Fixpoint has_triple (moves : list Z) : bool :=
  match moves with
  | a :: ((b :: c :: _) as tl) => ((a =? b) && (a =? c)) || has_triple tl
  | _ => false
  end.

(** No byte from index [from] on is the flag. *)
Definition no_flag_from (flag : Z) (buffer : list Z) (from : Z) : Prop :=
  forall i, from <= i < Z.of_nat (length buffer) -> array_get buffer i <> flag.

(** A log of decoder results without a failure. *)
Definition clean (log : list Z) : Prop := Forall (fun r => 0 <= r) log.

(** The way the program ends on a decode error: [exit(1)] right after
    the failing call, which is the last one of the log, with the error
    message as the only output. *)
Definition fatal_exit (status : Z) (out : list printed) (log : list Z) : Prop :=
  status = 1
  /\ exists r pre,
       r < 0 /\ out = [Print_yahdlc_error r]
       /\ log = pre ++ [r] /\ clean pre.

(** What the scanner relies on: the cursor is inside the buffer or just
    behind it, and the buffer is short enough for [end + 2] to be an
    [int]. *)
Definition iter_ok (iter : move_iterator_t) : Prop :=
  0 <= end_ iter <= data_len iter + 1 /\ data_len iter <= INT_MAX - 1.

(** ** A stand-in for the decoder, to run the scanner on examples

    A frame is [flag, kind, payload, flag] with flag [126]; [kind] goes
    to [control->frame] and [payload] to [dest[0]]. Any other span is
    refused with [-5]. *)
Definition toy_flag : Z := 126.

Definition toy_frame (kind payload : Z) : list Z :=
  [toy_flag; kind; payload; toy_flag].

Definition toy_get_data (st : unit) (control : Z) (src : list Z) (src_len : Z)
           (dest : list Z) (dest_len : Z) : get_data_result Z unit :=
  match firstn (Z.to_nat src_len) src with
  | [_; kind; payload; _] =>
    {| ret := 0; control_out := kind;
       dest_out := payload :: tl dest; dest_len_out := 1;
       state_out := st |}
  | _ =>
    {| ret := -5; control_out := control;
       dest_out := dest; dest_len_out := dest_len;
       state_out := st |}
  end.

(** [control->frame] of the stand-in. *)
Definition toy_kind (control : Z) : Z := control.

Definition toy_decode_span := decode_span Z unit toy_get_data.
Definition toy_next_move_loop :=
  next_move_loop toy_flag Z toy_kind unit toy_get_data.
Definition toy_next_move := next_move toy_flag Z toy_kind unit toy_get_data.
Definition toy_decoded_moves :=
  decoded_moves toy_flag Z toy_kind unit toy_get_data.

Definition toy_main (buffer : list Z) : option termination :=
  main toy_flag Z toy_kind unit toy_get_data
       buffer (repeat 0 (length buffer)) 0 tt.

(** The scanner in front of the closing flag of a first data frame. *)
Definition toy_iter : move_iterator_t :=
  {| start := 0; end_ := 3;
     data := toy_frame 0 3 ++ toy_frame 1 9;
     data_len := 8;
     output := repeat 0 8; output_len := 0 |}.

Definition toy_world : world Z unit :=
  {| control := 0; lib_state := tt; decodes := [] |}.

(** A log with a frame that is one byte short between two good ones. *)
Definition toy_bad_log : list Z :=
  toy_frame 0 3 ++ [toy_flag; 0; toy_flag] ++ toy_frame 0 3.

(* ================================================================= *)
(** * Part II: properties *)


Example toy_run_bad_frame :
  option_map (fun t => (exit_status t, stdout t, decode_log t))
    (toy_main toy_bad_log)
  = Some (1, [Print_yahdlc_error (-5)], [0; -5]).
Proof. vm_compute. reflexivity. Qed.

(** ** Machine arithmetic *)

Lemma wrap_int_small (z : Z) : INT_MIN <= z <= INT_MAX -> wrap_int z = z.
Proof.
  unfold INT_MIN, INT_MAX, wrap_int. intros H.
  rewrite Z.mod_small; lia.
Qed.

Lemma to_uint_small (z : Z) : 0 <= z < 2 ^ 32 -> to_uint z = z.
Proof. intros H. unfold to_uint. apply Z.mod_small. exact H. Qed.

Lemma char_of_int_char (c : Z) : is_char c -> char_of_int c = c.
Proof.
  unfold is_char, char_of_int. intros H.
  rewrite Z.mod_small; lia.
Qed.

Lemma eqb_false (a b : Z) : a <> b -> (a =? b) = false.
Proof. intros H. destruct (Z.eqb_spec a b); [contradiction | reflexivity]. Qed.

Lemma is_char_no_move : is_char NO_MOVE.
Proof. unfold is_char, NO_MOVE. lia. Qed.

(** ** The board *)

Lemma clamp_bounds (v lo hi : Z) : lo <= hi -> lo <= clamp v lo hi <= hi.
Proof.
  intros H. unfold clamp.
  destruct (Z.ltb_spec v lo); [lia|].
  destruct (Z.gtb_spec v hi); lia.
Qed.

Lemma clamp_inside (v lo hi : Z) : lo <= v <= hi -> clamp v lo hi = v.
Proof.
  intros H. unfold clamp.
  destruct (Z.ltb_spec v lo); [lia|].
  destruct (Z.gtb_spec v hi); lia.
Qed.

Lemma clamp_max_min (v lo hi : Z) :
  lo <= hi -> clamp v lo hi = Z.max lo (Z.min v hi).
Proof.
  intros H. unfold clamp.
  destruct (Z.ltb_spec v lo); [lia|].
  destruct (Z.gtb_spec v hi); lia.
Qed.

(** The moves other than the four directions fall through the [switch]. *)
Lemma update_player_unrecognized (p : player_position_t) (m : Z) :
  ~ recognized m -> update_player p m = p.
Proof.
  unfold recognized. intros H.
  destruct m as [|q|q]; try reflexivity.
  destruct q as [[q|q|]|[q|[q|q|]|]|]; try reflexivity; exfalso; apply H; lia.
Qed.

Lemma update_player_in_grid (p : player_position_t) (m : Z) :
  in_grid p -> in_grid (update_player p m).
Proof.
  unfold in_grid. intros [Hx Hy].
  destruct m as [|q|q]; simpl; try (split; assumption).
  destruct q as [[q|q|]|[q|[q|q|]|]|]; simpl; try (split; assumption);
    split; try assumption; apply clamp_bounds; lia.
Qed.

(** The coordinate that a direction writes is on the board, wherever
    the player was. *)
Lemma update_player_written_coordinate (p : player_position_t) (m : Z) :
  (m = 1 \/ m = 2 -> 0 <= y (update_player p m) <= 4)
  /\ (m = 3 \/ m = 4 -> 0 <= x (update_player p m) <= 4).
Proof.
  split; intros [-> | ->]; cbn [update_player x y]; apply clamp_bounds; lia.
Qed.

(** ** The window as a shift register *)

Lemma get3_0 (a b c : Z) : array_get [a; b; c] 0 = a.
Proof. reflexivity. Qed.
Lemma get3_1 (a b c : Z) : array_get [a; b; c] 1 = b.
Proof. reflexivity. Qed.
Lemma get3_2 (a b c : Z) : array_get [a; b; c] 2 = c.
Proof. reflexivity. Qed.
Lemma set3_0 (a b c v : Z) : array_set [a; b; c] 0 v = [v; b; c].
Proof. reflexivity. Qed.
Lemma set3_1 (a b c v : Z) : array_set [a; b; c] 1 v = [a; v; c].
Proof. reflexivity. Qed.
Lemma set3_2 (a b c v : Z) : array_set [a; b; c] 2 v = [a; b; v].
Proof. reflexivity. Qed.
Lemma next_idx_0 : Z.rem (int_add 0 1) 3 = 1.
Proof. reflexivity. Qed.
Lemma next_idx_1 : Z.rem (int_add 1 1) 3 = 2.
Proof. reflexivity. Qed.
Lemma next_idx_2 : Z.rem (int_add 2 1) 3 = 0.
Proof. reflexivity. Qed.
Lemma rem3_01 : Z.rem (0 + 1) 3 = 1.
Proof. reflexivity. Qed.
Lemma rem3_02 : Z.rem (0 + 2) 3 = 2.
Proof. reflexivity. Qed.
Lemma rem3_11 : Z.rem (1 + 1) 3 = 2.
Proof. reflexivity. Qed.
Lemma rem3_12 : Z.rem (1 + 2) 3 = 0.
Proof. reflexivity. Qed.
Lemma rem3_21 : Z.rem (2 + 1) 3 = 0.
Proof. reflexivity. Qed.
Lemma rem3_22 : Z.rem (2 + 2) 3 = 1.
Proof. reflexivity. Qed.

Create Rewrite HintDb slots.
#[local] Hint Rewrite get3_0 get3_1 get3_2 set3_0 set3_1 set3_2
  next_idx_0 next_idx_1 next_idx_2
  rem3_01 rem3_02 rem3_11 rem3_12 rem3_21 rem3_22 : slots.

Lemma well_formed_inv (s : sim_state) :
  well_formed s ->
  exists a b c,
    prev_moves s = [a; b; c]
    /\ is_char a /\ is_char b /\ is_char c
    /\ (prev_idx s = 0 \/ prev_idx s = 1 \/ prev_idx s = 2).
Proof.
  intros (Hlen & Hidx & Hch).
  destruct (prev_moves s) as [|a [|b [|c [|d t]]]]; try discriminate.
  exists a, b, c.
  inversion Hch as [|? ? Ha Hch1]; subst.
  inversion Hch1 as [|? ? Hb Hch2]; subst.
  inversion Hch2 as [|? ? Hc _]; subst.
  split; [reflexivity|]. repeat (split; [assumption|]). lia.
Qed.

Lemma Forall_is_char3 (a b c : Z) :
  is_char a -> is_char b -> is_char c -> Forall is_char [a; b; c].
Proof.
  intros Ha Hb Hc.
  repeat (apply Forall_cons; [assumption|]). apply Forall_nil.
Qed.

Lemma well_formed_initial : well_formed initial_state.
Proof.
  repeat split; simpl; try lia.
  apply Forall_is_char3; apply is_char_no_move.
Qed.

(** Splits on the three positions of the cursor, with the array as
    three named slots. *)
Ltac by_cursor s H :=
  let a := fresh "a" in let b := fresh "b" in let c := fresh "c" in
  let Hpm := fresh "Hpm" in let Hi := fresh "Hi" in
  let Ha := fresh "Ha" in let Hb := fresh "Hb" in let Hc := fresh "Hc" in
  destruct (well_formed_inv s H) as (a & b & c & Hpm & Ha & Hb & Hc & Hi);
  destruct s as [pm idx pl ap]; simpl in Hpm, Hi; subst pm;
  destruct Hi as [Hi | [Hi | Hi]]; subst idx.

Ltac split_eqb :=
  repeat match goal with
  | |- context [Z.eqb ?u ?v] => destruct (Z.eqb_spec u v)
  | H : context [Z.eqb ?u ?v] |- _ => destruct (Z.eqb_spec u v)
  end.

(** One pass through the body of the loop, read on the window: the
    oldest slot [a] leaves and is applied when it holds a move, [m]
    enters, and three equal slots empty the window. *)
Lemma loop_body_window (s : sim_state) (m a b c : Z) :
  well_formed s -> is_char m -> window s = [a; b; c] ->
  well_formed (loop_body s m)
  /\ window (loop_body s m)
     = (if (b =? c) && (c =? m) then [NO_MOVE; NO_MOVE; NO_MOVE] else [b; c; m])
  /\ applied (loop_body s m) = applied s ++ present [a]
  /\ player (loop_body s m) = fold_left update_player (present [a]) (player s)
  /\ three_in_a_row (array_set (prev_moves s) (prev_idx s) m)
     = (b =? c) && (c =? m)
  /\ prev_moves (loop_body s m)
     = (if (b =? c) && (c =? m) then [NO_MOVE; NO_MOVE; NO_MOVE]
        else array_set (prev_moves s) (prev_idx s) m).
Proof.
  intros Hwf Hm Hw.
  by_cursor s Hwf;
    unfold window in Hw; cbn [prev_moves prev_idx] in Hw;
    autorewrite with slots in Hw; injection Hw as -> -> ->.
  all: unfold loop_body, window, well_formed, three_in_a_row, present;
    cbn [prev_moves prev_idx player applied filter];
    autorewrite with slots; rewrite char_of_int_char by assumption.
  all: unfold NO_MOVE; destruct (Z.eqb_spec a (-1));
    cbn [negb prev_moves prev_idx player applied call_update_player
         fold_left app];
    autorewrite with slots; unfold three_in_a_row; autorewrite with slots.
  all: split_eqb; subst; cbn [negb andb length]; autorewrite with slots.
  all: try (exfalso; congruence).
  all: rewrite ?app_nil_r; repeat split; try reflexivity; try lia.
  all: apply Forall_is_char3; assumption || (unfold is_char; lia).
Qed.

(** The final loop, read on the window: the three slots are visited
    from the cursor on and the array is left as it was. *)
Lemma flush_window (s : sim_state) (a b c : Z) :
  well_formed s -> window s = [a; b; c] ->
  applied (flush s) = applied s ++ present [a; b; c]
  /\ player (flush s) = fold_left update_player (present [a; b; c]) (player s)
  /\ prev_moves (flush s) = prev_moves s
  /\ prev_idx (flush s) = prev_idx s.
Proof.
  intros Hwf Hw.
  by_cursor s Hwf;
    unfold window in Hw; cbn [prev_moves prev_idx] in Hw;
    autorewrite with slots in Hw; injection Hw as -> -> ->.
  all: unfold flush, for_loop, flush_step, present;
    cbn [prev_moves prev_idx player applied filter];
    autorewrite with slots; rewrite (char_of_int_char a) by assumption.
  all: unfold NO_MOVE; destruct (Z.eqb_spec a (-1));
    cbn [negb prev_moves prev_idx player applied call_update_player filter];
    autorewrite with slots; rewrite (char_of_int_char b) by assumption.
  all: destruct (Z.eqb_spec b (-1));
    cbn [negb prev_moves prev_idx player applied call_update_player filter];
    autorewrite with slots; rewrite (char_of_int_char c) by assumption.
  all: destruct (Z.eqb_spec c (-1));
    cbn [negb prev_moves prev_idx player applied call_update_player
         fold_left app];
    autorewrite with slots; rewrite <- ?app_assoc, ?app_nil_r;
    repeat split; reflexivity.
Qed.

Lemma window_shape (s : sim_state) :
  exists a b c, window s = [a; b; c].
Proof. unfold window. eauto. Qed.

Lemma loop_body_well_formed (s : sim_state) (m : Z) :
  well_formed s -> is_char m -> well_formed (loop_body s m).
Proof.
  intros Hwf Hm. destruct (window_shape s) as (a & b & c & Hw).
  apply (loop_body_window s m a b c Hwf Hm Hw).
Qed.

Lemma process_moves_well_formed (moves : list Z) :
  forall s, well_formed s -> Forall is_char moves ->
            well_formed (process_moves s moves).
Proof.
  induction moves as [|m moves IH]; intros s Hwf Hch; simpl.
  - exact Hwf.
  - inversion Hch as [|? ? Hm Hrest]; subst.
    apply IH; [apply loop_body_well_formed; assumption | assumption].
Qed.

(** The position is the fold of [update_player] over the moves applied. *)
Lemma loop_body_player (s : sim_state) (m : Z) (p0 : player_position_t) :
  well_formed s -> is_char m ->
  player s = fold_left update_player (applied s) p0 ->
  player (loop_body s m) = fold_left update_player (applied (loop_body s m)) p0.
Proof.
  intros Hwf Hm Hp. destruct (window_shape s) as (a & b & c & Hw).
  destruct (loop_body_window s m a b c Hwf Hm Hw) as (_ & _ & Hap & Hpl & _).
  rewrite Hap, Hpl, fold_left_app, Hp. reflexivity.
Qed.

Lemma process_moves_player (moves : list Z) (p0 : player_position_t) :
  forall s, well_formed s -> Forall is_char moves ->
    player s = fold_left update_player (applied s) p0 ->
    player (process_moves s moves)
    = fold_left update_player (applied (process_moves s moves)) p0.
Proof.
  induction moves as [|m moves IH]; intros s Hwf Hch Hp; simpl.
  - exact Hp.
  - inversion Hch as [|? ? Hm Hrest]; subst.
    apply IH; [apply loop_body_well_formed; assumption | assumption |].
    apply loop_body_player; assumption.
Qed.

(** The final position is obtained by applying the effective moves, in
    order, from the start position. *)
Lemma run_moves_player (moves : list Z) :
  Forall is_char moves ->
  player (run_moves moves)
  = fold_left update_player (effective_moves moves) (player initial_state).
Proof.
  intros Hch. unfold effective_moves, run_moves.
  pose proof (process_moves_well_formed moves _ well_formed_initial Hch) as Hwf.
  destruct (window_shape (process_moves initial_state moves))
    as (a & b & c & Hw).
  destruct (flush_window _ a b c Hwf Hw) as (Hap & Hpl & _).
  rewrite Hap, Hpl, fold_left_app. f_equal.
  apply process_moves_player; [apply well_formed_initial | assumption |].
  reflexivity.
Qed.

(** ** The filter against the triple-discard rule *)

Lemma discard_triples_eq (a b c : Z) (rest : list Z) :
  discard_triples (a :: b :: c :: rest)
  = if (a =? b) && (a =? c) then discard_triples rest
    else a :: discard_triples (b :: c :: rest).
Proof. reflexivity. Qed.

Lemma discard_triples_short (q : list Z) :
  (length q <= 2)%nat -> discard_triples q = q.
Proof.
  destruct q as [|a [|b [|c t]]]; simpl; intros H; try reflexivity; lia.
Qed.

Lemma not_a_triple (a b c : Z) :
  discard_triples [a; b; c] = [a; b; c] -> (a =? b) && (a =? c) = false.
Proof.
  rewrite discard_triples_eq.
  destruct ((a =? b) && (a =? c)); [discriminate | reflexivity].
Qed.

Lemma present_padded (q : list Z) :
  (length q <= 3)%nat -> Forall move_code q -> present (padded q) = q.
Proof.
  intros Hlen Hq.
  assert (Hne : forall c, move_code c -> negb (c =? NO_MOVE) = true).
  { intros c [_ Hc]. destruct (Z.eqb_spec c NO_MOVE); [contradiction | reflexivity]. }
  destruct q as [|a [|b [|c [|d t]]]]; simpl in Hlen; try lia;
    repeat match goal with
           | H : Forall _ (_ :: _) |- _ => inversion H; subst; clear H
           end;
    unfold padded, present, filter;
    rewrite ?Z.eqb_refl; cbn [negb];
    repeat match goal with
           | H : move_code _ |- _ => rewrite (Hne _ H); clear H
           end;
    reflexivity.
Qed.

Lemma move_code_cons (c : Z) (q : list Z) :
  is_char c -> c <> -1 -> Forall move_code q -> Forall move_code (c :: q).
Proof. intros Hc Hne Hq. constructor; [split; assumption | exact Hq]. Qed.

(** The invariant of the loop of [main]: [q] holds the moves received
    since the last discarded triple that are still in the window, and
    the moves applied so far, followed by what the rule keeps of [q]
    and of the moves to come, are what the rule keeps of the input. *)
Lemma filter_refines_rule (l : list Z) :
  forall (s : sim_state) (q : list Z),
    well_formed s -> window s = padded q -> (length q <= 3)%nat ->
    Forall move_code q -> discard_triples q = q -> Forall move_code l ->
    applied (flush (process_moves s l)) = applied s ++ discard_triples (q ++ l).
Proof.
  induction l as [|m l IH]; intros s q Hwf Hw Hlen Hq Hnt Hl.
  - change (process_moves s []) with s. rewrite app_nil_r, Hnt.
    destruct (window_shape s) as (a & b & c & Habc).
    destruct (flush_window s a b c Hwf Habc) as (Hap & _).
    rewrite Hap, <- Habc, Hw, present_padded by assumption. reflexivity.
  - inversion Hl as [|? ? Hm Hl']; subst.
    destruct Hm as [Hmc Hm1]. unfold NO_MOVE in Hm1.
    change (process_moves s (m :: l)) with (process_moves (loop_body s m) l).
    destruct q as [|a [|b [|c [|d t]]]]; simpl in Hlen; try lia;
      repeat match goal with
             | H : Forall _ (_ :: _) |- _ => inversion H; subst; clear H
             end;
      repeat match goal with
             | H : move_code _ |- _ => destruct H as [? H]; unfold NO_MOVE in H
             end;
      unfold padded, NO_MOVE in Hw;
      destruct (loop_body_window s m _ _ _ Hwf Hmc Hw)
        as (Hwf' & Hw' & Hap & _);
      unfold present, filter, NO_MOVE in Hap.
    + (* empty window *)
      replace ((-1 =? -1) && (-1 =? m)) with false in Hw'
        by (destruct (Z.eqb_spec (-1) m); [lia | reflexivity]).
      cbn [negb Z.eqb] in Hap. rewrite app_nil_r in Hap.
      rewrite (IH _ [m] Hwf' Hw');
        [ rewrite Hap; reflexivity
        | simpl; lia
        | repeat (apply move_code_cons; [assumption | assumption |]);
          apply Forall_nil
        | reflexivity
        | assumption ].
    + (* one move held *)
      replace ((-1 =? a) && (a =? m)) with false in Hw'
        by (destruct (Z.eqb_spec (-1) a); [lia | reflexivity]).
      cbn [negb Z.eqb] in Hap. rewrite app_nil_r in Hap.
      rewrite (IH _ [a; m] Hwf' Hw');
        [ rewrite Hap; reflexivity
        | simpl; lia
        | repeat (apply move_code_cons; [assumption | assumption |]);
          apply Forall_nil
        | reflexivity
        | assumption ].
    + (* two moves held *)
      cbn [negb Z.eqb] in Hap. rewrite app_nil_r in Hap.
      destruct (Z.eqb_spec a b) as [<-|Hab];
        [destruct (Z.eqb_spec a m) as [<-|Ham]|]; cbn [andb] in Hw'.
      * rewrite (IH _ [] Hwf' Hw');
          [ | simpl; lia | apply Forall_nil | reflexivity | assumption ].
        rewrite Hap. cbn [app]. rewrite discard_triples_eq, Z.eqb_refl.
        reflexivity.
      * rewrite (IH _ [a; a; m] Hwf' Hw');
          [ rewrite Hap; reflexivity
          | simpl; lia
          | repeat (apply move_code_cons; [assumption | assumption |]);
            apply Forall_nil
          | rewrite discard_triples_eq, Z.eqb_refl;
            destruct (Z.eqb_spec a m); [lia | reflexivity]
          | assumption ].
      * rewrite (IH _ [a; b; m] Hwf' Hw');
          [ rewrite Hap; reflexivity
          | simpl; lia
          | repeat (apply move_code_cons; [assumption | assumption |]);
            apply Forall_nil
          | rewrite discard_triples_eq;
            destruct (Z.eqb_spec a b); [lia | reflexivity]
          | assumption ].
    + (* full window *)
      pose proof (not_a_triple a b c Hnt) as Habc.
      replace (negb (a =? -1)) with true in Hap
        by (destruct (Z.eqb_spec a (-1)); [lia | reflexivity]).
      cbn [app]. rewrite discard_triples_eq, Habc.
      destruct (Z.eqb_spec b c) as [<-|Hbc];
        [destruct (Z.eqb_spec b m) as [<-|Hbm]|]; cbn [andb] in Hw'.
      * rewrite (IH _ [] Hwf' Hw');
          [ | simpl; lia | apply Forall_nil | reflexivity | assumption ].
        rewrite Hap, <- app_assoc. cbn [app].
        rewrite discard_triples_eq, Z.eqb_refl. reflexivity.
      * rewrite (IH _ [b; b; m] Hwf' Hw');
          [ rewrite Hap, <- app_assoc; reflexivity
          | simpl; lia
          | repeat (apply move_code_cons; [assumption | assumption |]);
            apply Forall_nil
          | rewrite discard_triples_eq, Z.eqb_refl;
            destruct (Z.eqb_spec b m); [lia | reflexivity]
          | assumption ].
      * rewrite (IH _ [b; c; m] Hwf' Hw');
          [ rewrite Hap, <- app_assoc; reflexivity
          | simpl; lia
          | repeat (apply move_code_cons; [assumption | assumption |]);
            apply Forall_nil
          | rewrite discard_triples_eq;
            destruct (Z.eqb_spec b c); [lia | reflexivity]
          | assumption ].
Qed.

Lemma effective_moves_rule (moves : list Z) :
  Forall move_code moves -> effective_moves moves = discard_triples moves.
Proof.
  intros Hm. unfold effective_moves, run_moves.
  rewrite (filter_refines_rule moves initial_state []);
    try reflexivity; try assumption.
  - apply well_formed_initial.
  - simpl. lia.
  - apply Forall_nil.
Qed.

Lemma move_code_repeat (c : Z) (n : nat) :
  move_code c -> Forall move_code (repeat c n).
Proof.
  intros Hc. induction n as [|n IH]; simpl; constructor; assumption.
Qed.

(** What the rule keeps of a run of [n] identical codes. *)
Lemma discard_triples_run (c : Z) (k r : nat) :
  (r < 3)%nat ->
  discard_triples (repeat c (3 * k + r)) = repeat c r.
Proof.
  intros Hr. induction k as [|k IH].
  - apply discard_triples_short. rewrite repeat_length. simpl. lia.
  - replace (3 * S k + r)%nat with (S (S (S (3 * k + r)))) by lia.
    cbn [repeat]. rewrite discard_triples_eq, Z.eqb_refl. exact IH.
Qed.

(** C1. The filter of [main] removes exactly the completed runs of
    three consecutive identical move codes: on every sequence of move
    codes the moves that reach [update_player] are those that the
    triple-discard rule keeps, in order. In particular a run of three
    identical codes yields no effective move, a run of four yields the
    fourth, a run of five the fourth and the fifth, and a run of six
    none; in general a run of [n] yields [n mod 3] of them. *)
Theorem triple_discard_filter (moves : list Z) (c : Z) :
  Forall move_code moves -> move_code c ->
  effective_moves moves = discard_triples moves
  /\ effective_moves (repeat c 3) = []
  /\ effective_moves (repeat c 4) = [c]
  /\ effective_moves (repeat c 5) = [c; c]
  /\ effective_moves (repeat c 6) = []
  /\ forall n, effective_moves (repeat c n) = repeat c (n mod 3).
Proof.
  intros Hm Hc.
  assert (Hrun : forall n, effective_moves (repeat c n) = repeat c (n mod 3)).
  { intros n.
    rewrite (effective_moves_rule _ (move_code_repeat c n Hc)).
    rewrite (Nat.div_mod_eq n 3) at 1.
    apply discard_triples_run. apply Nat.mod_upper_bound. discriminate. }
  split; [apply effective_moves_rule; exact Hm|].
  repeat split; try apply Hrun.
Qed.

Lemma triple_discard_filter_witness :
  effective_moves [3; 1; 1; 1; 1; 2; 2] = discard_triples [3; 1; 1; 1; 1; 2; 2]
  /\ effective_moves (repeat 1 3) = []
  /\ effective_moves (repeat 1 4) = [1]
  /\ effective_moves (repeat 1 5) = [1; 1]
  /\ effective_moves (repeat 1 6) = []
  /\ forall n, effective_moves (repeat 1 n) = repeat 1 (n mod 3).
Proof.
  apply (triple_discard_filter [3; 1; 1; 1; 1; 2; 2] 1).
  - repeat (apply move_code_cons; [unfold is_char; lia | lia |]).
    apply Forall_nil.
  - split; [unfold is_char; lia | unfold NO_MOVE; lia].
Defined.

(** C3. From the start position (0,4) the decoded moves Right, Right,
    Up, Up, Up, Down reach [update_player] as Right, Right, Down and
    leave the player at (2,4); the last Down is clamped at the bottom
    edge. *)
Theorem scenario_right_right_up_up_up_down :
  player initial_state = {| x := 0; y := 4 |}
  /\ effective_moves [3; 3; 1; 1; 1; 2] = [3; 3; 2]
  /\ player (run_moves [3; 3; 1; 1; 1; 2]) = {| x := 2; y := 4 |}
  /\ fold_left update_player [3; 3] {| x := 0; y := 4 |} = {| x := 2; y := 4 |}
  /\ update_player {| x := 2; y := 4 |} 2 = {| x := 2; y := 4 |}.
Proof. repeat split; vm_compute; reflexivity. Qed.

(** The same scenario through the scanner, with the stand-in decoder
    and a control frame among the data frames. *)
Example toy_scenario_right_right_up_up_up_down :
  option_map (fun t => (exit_status t, stdout t))
    (toy_main (toy_frame 0 3 ++ toy_frame 0 3 ++ toy_frame 1 9 ++
               toy_frame 0 1 ++ toy_frame 0 1 ++ toy_frame 0 1 ++
               toy_frame 0 2))
  = Some (0, [Print_player_position 2 4]).
Proof. vm_compute. reflexivity. Qed.

Ltac pending_is q1 e Hwf Hw :=
  exists q1, e;
  split; [exact Hwf|]; split; [exact Hw|]; split; [simpl; lia|];
  split; [repeat (apply Forall_cons; [assumption|]); apply Forall_nil
         | reflexivity].

(** The window, read from the cursor on, holds the latest moves in the
    order of their arrival, behind the empty slots. *)
Lemma loop_body_pending (s : sim_state) (q : list Z) (m : Z) :
  well_formed s -> window s = padded q -> (length q <= 3)%nat ->
  Forall move_code q -> move_code m ->
  exists q1 e,
    well_formed (loop_body s m)
    /\ window (loop_body s m) = padded q1
    /\ (length q1 <= 3)%nat
    /\ Forall move_code q1
    /\ q ++ [m] = e ++ q1.
Proof.
  intros Hwf Hw Hlen Hq [Hmc Hm1].
  assert (Hm : move_code m) by (split; assumption).
  unfold NO_MOVE in Hm1.
  destruct q as [|a [|b [|c [|d t]]]]; simpl in Hlen; try lia;
    repeat match goal with
           | H : Forall _ (_ :: _) |- _ => inversion H; subst; clear H
           end;
    unfold padded, NO_MOVE in Hw;
    destruct (loop_body_window s m _ _ _ Hwf Hmc Hw) as (Hwf' & Hw' & _).
  - rewrite (eqb_false (-1) m), andb_false_r in Hw' by lia.
    pending_is [m] (@nil Z) Hwf' Hw'.
  - match goal with
    | H : move_code a |- _ =>
      pose proof (proj2 H) as Ha1; unfold NO_MOVE in Ha1
    end.
    rewrite (eqb_false (-1) a) in Hw' by lia. cbn [andb] in Hw'.
    pending_is [a; m] (@nil Z) Hwf' Hw'.
  - destruct ((a =? b) && (b =? m)).
    + pending_is (@nil Z) [a; b; m] Hwf' Hw'.
    + pending_is [a; b; m] (@nil Z) Hwf' Hw'.
  - destruct ((b =? c) && (c =? m)).
    + pending_is (@nil Z) [a; b; c; m] Hwf' Hw'.
    + pending_is [b; c; m] [a] Hwf' Hw'.
Qed.

Lemma window_in_arrival_order (l : list Z) :
  forall (s : sim_state) (q : list Z),
    well_formed s -> window s = padded q -> (length q <= 3)%nat ->
    Forall move_code q -> Forall move_code l ->
    exists q' pre,
      window (process_moves s l) = padded q'
      /\ (length q' <= 3)%nat
      /\ q ++ l = pre ++ q'.
Proof.
  induction l as [|m l IH]; intros s q Hwf Hw Hlen Hq Hl.
  - exists q, []. rewrite app_nil_r. repeat split; assumption.
  - inversion Hl as [|? ? Hm Hl']; subst.
    destruct (loop_body_pending s q m Hwf Hw Hlen Hq Hm)
      as (q1 & e & Hwf1 & Hw1 & Hlen1 & Hq1 & Heq).
    destruct (IH (loop_body s m) q1 Hwf1 Hw1 Hlen1 Hq1 Hl')
      as (q' & pre & Hw' & Hlen' & Heq').
    exists q', (e ++ pre). split; [exact Hw'|]. split; [exact Hlen'|].
    change (m :: l) with ([m] ++ l).
    rewrite app_assoc, Heq, <- !app_assoc, Heq'. reflexivity.
Qed.

(** ** A completed triple *)

(** C2, as the specification words it, does not hold: the move that
    leaves the window in the step that completes a triple has been
    applied and stays applied. After Right, Up, Up the next Up
    completes a triple of Up while Right is applied. *)
Lemma completed_triple_unemits_evicted_counterexample :
  ~ (forall (s : sim_state) (m : Z),
        well_formed s -> is_char m -> m <> NO_MOVE ->
        three_in_a_row (array_set (prev_moves s) (prev_idx s) m) = true ->
        applied (loop_body s m) = applied s
        /\ player (loop_body s m) = player s
        /\ prev_moves (loop_body s m) = [NO_MOVE; NO_MOVE; NO_MOVE]).
Proof.
  intros H.
  assert (Hwf : well_formed (process_moves initial_state [3; 1; 1])).
  { apply process_moves_well_formed; [apply well_formed_initial|].
    repeat (apply Forall_cons; [unfold is_char; lia|]). apply Forall_nil. }
  destruct (H (process_moves initial_state [3; 1; 1]) 1 Hwf) as (Hap & _).
  - unfold is_char. lia.
  - unfold NO_MOVE. lia.
  - reflexivity.
  - vm_compute in Hap. discriminate Hap.
Qed.

(** C2, amended. When the incoming move makes the three slots equal,
    the window is left entirely empty; the move that left the window in
    that step, if any, is not part of the triple: it has been applied
    and stays applied. *)
Theorem completed_triple_empties_window (s : sim_state) (m : Z) :
  well_formed s -> is_char m ->
  three_in_a_row (array_set (prev_moves s) (prev_idx s) m) = true ->
  prev_moves (loop_body s m) = [NO_MOVE; NO_MOVE; NO_MOVE]
  /\ window (loop_body s m) = [NO_MOVE; NO_MOVE; NO_MOVE]
  /\ applied (loop_body s m) = applied s ++ present [evicted s]
  /\ player (loop_body s m)
     = fold_left update_player (present [evicted s]) (player s).
Proof.
  intros Hwf Hm H3.
  destruct (window_shape s) as (a & b & c & Hw).
  assert (Ha : evicted s = a).
  { unfold window in Hw. injection Hw as Ha _ _. exact Ha. }
  destruct (loop_body_window s m a b c Hwf Hm Hw)
    as (_ & Hw' & Hap & Hpl & Ht & Hpm).
  rewrite Ht in H3. rewrite H3 in Hw', Hpm. rewrite Ha.
  repeat split; assumption.
Qed.

Lemma completed_triple_empties_window_witness :
  prev_moves (loop_body (process_moves initial_state [3; 1; 1]) 1)
  = [NO_MOVE; NO_MOVE; NO_MOVE]
  /\ window (loop_body (process_moves initial_state [3; 1; 1]) 1)
     = [NO_MOVE; NO_MOVE; NO_MOVE]
  /\ applied (loop_body (process_moves initial_state [3; 1; 1]) 1)
     = applied (process_moves initial_state [3; 1; 1])
       ++ present [evicted (process_moves initial_state [3; 1; 1])]
  /\ player (loop_body (process_moves initial_state [3; 1; 1]) 1)
     = fold_left update_player
         (present [evicted (process_moves initial_state [3; 1; 1])])
         (player (process_moves initial_state [3; 1; 1])).
Proof.
  apply (completed_triple_empties_window
           (process_moves initial_state [3; 1; 1]) 1).
  - apply process_moves_well_formed; [apply well_formed_initial|].
    repeat (apply Forall_cons; [unfold is_char; lia|]). apply Forall_nil.
  - unfold is_char. lia.
  - reflexivity.
Defined.

(** ** The end of the input *)

(** C8. At the end of the input the window is flushed by three passes
    of the final loop, starting at the cursor: each slot that holds a move
    is applied, oldest first; the array is not written and no triple is
    looked for. *)
Theorem flush_applies_window_oldest_first (s : sim_state) :
  well_formed s ->
  flush s = flush_step (flush_step (flush_step s))
  /\ applied (flush s) = applied s ++ present (window s)
  /\ player (flush s) = fold_left update_player (present (window s)) (player s)
  /\ prev_moves (flush s) = prev_moves s
  /\ prev_idx (flush s) = prev_idx s.
Proof.
  intros Hwf. split; [reflexivity|].
  destruct (window_shape s) as (a & b & c & Hw).
  rewrite Hw. apply flush_window; assumption.
Qed.

Lemma flush_applies_window_oldest_first_witness :
  flush (process_moves initial_state [3; 1; 1; 2; 4])
  = flush_step (flush_step (flush_step
      (process_moves initial_state [3; 1; 1; 2; 4])))
  /\ applied (flush (process_moves initial_state [3; 1; 1; 2; 4]))
     = applied (process_moves initial_state [3; 1; 1; 2; 4])
       ++ present (window (process_moves initial_state [3; 1; 1; 2; 4]))
  /\ player (flush (process_moves initial_state [3; 1; 1; 2; 4]))
     = fold_left update_player
         (present (window (process_moves initial_state [3; 1; 1; 2; 4])))
         (player (process_moves initial_state [3; 1; 1; 2; 4]))
  /\ prev_moves (flush (process_moves initial_state [3; 1; 1; 2; 4]))
     = prev_moves (process_moves initial_state [3; 1; 1; 2; 4])
  /\ prev_idx (flush (process_moves initial_state [3; 1; 1; 2; 4]))
     = prev_idx (process_moves initial_state [3; 1; 1; 2; 4]).
Proof.
  apply (flush_applies_window_oldest_first
           (process_moves initial_state [3; 1; 1; 2; 4])).
  apply process_moves_well_formed; [apply well_formed_initial|].
  repeat (apply Forall_cons; [unfold is_char; lia|]). apply Forall_nil.
Defined.

(** ** Codes that are no direction *)

Lemma present_move_codes (q : list Z) :
  Forall move_code q -> present q = q.
Proof.
  induction 1 as [|c q [_ Hc] _ IH]; [reflexivity|].
  unfold present in *. cbn [filter].
  destruct (Z.eqb_spec c NO_MOVE); [contradiction|].
  cbn [negb]. rewrite IH. reflexivity.
Qed.

(** C4. The loop stores the byte it is given as it is, whatever its
    value, and the test for three in a row reads it. For a byte [c]
    that is no direction: applying it leaves the position unchanged,
    three of them in a row are discarded like any triple whereas two
    are held and then applied, and between moves of one direction [d]
    it breaks the run, so that all of [d; d; c; d] is applied where
    [d; d; d] is discarded. *)
Theorem unrecognized_codes_take_part (c d : Z) :
  is_char c -> recognized d ->
  (forall s, well_formed s ->
     three_in_a_row (array_set (prev_moves s) (prev_idx s) c) = false ->
     prev_moves (loop_body s c) = array_set (prev_moves s) (prev_idx s) c
     /\ array_get (prev_moves (loop_body s c)) (prev_idx s) = c)
  /\ (~ recognized c ->
      (forall p, update_player p c = p)
      /\ effective_moves [c; c] = present [c; c]
      /\ effective_moves [c; c; c] = []
      /\ player (run_moves [c; c; c]) = player initial_state
      /\ effective_moves [d; d; d] = []
      /\ effective_moves [d; d; c; d] = present [d; d; c; d]).
Proof.
  intros Hc Hd. split.
  - intros s Hwf H3.
    destruct (window_shape s) as (a & b & e & Hw).
    destruct (loop_body_window s c a b e Hwf Hc Hw)
      as (_ & _ & _ & _ & Ht & Hpm).
    rewrite Ht in H3. rewrite H3 in Hpm. split; [exact Hpm|].
    rewrite Hpm. clear - Hwf.
    by_cursor s Hwf; cbn [prev_moves prev_idx]; autorewrite with slots;
      reflexivity.
  - intros Hnc.
    assert (Hdc : move_code d).
    { unfold recognized in Hd. split; unfold is_char, NO_MOVE; lia. }
    assert (Hdne : d <> c) by (intros ->; contradiction).
    assert (H3 : effective_moves [d; d; d] = []).
    { rewrite effective_moves_rule
        by (repeat (apply Forall_cons; [exact Hdc|]); apply Forall_nil).
      rewrite discard_triples_eq, Z.eqb_refl. reflexivity. }
    split; [intros p; apply update_player_unrecognized; exact Hnc|].
    destruct (Z.eq_dec c NO_MOVE) as [-> | Hne].
    + unfold recognized in Hd.
      destruct Hd as [-> | [-> | [-> | ->]]]; repeat split; reflexivity.
    + assert (Hcc : move_code c) by (split; assumption).
      assert (Hccc : effective_moves [c; c; c] = []).
      { rewrite effective_moves_rule
          by (repeat (apply Forall_cons; [exact Hcc|]); apply Forall_nil).
        rewrite discard_triples_eq, Z.eqb_refl. reflexivity. }
      repeat split.
      * rewrite effective_moves_rule, present_move_codes;
          try (repeat (apply Forall_cons; [exact Hcc|]); apply Forall_nil).
        reflexivity.
      * exact Hccc.
      * rewrite run_moves_player, Hccc; [reflexivity|].
        repeat (apply Forall_cons; [exact Hc|]). apply Forall_nil.
      * exact H3.
      * assert (Hall : Forall move_code [d; d; c; d]).
        { repeat (apply Forall_cons; [assumption|]). apply Forall_nil. }
        rewrite effective_moves_rule, present_move_codes by exact Hall.
        rewrite discard_triples_eq, Z.eqb_refl, (eqb_false d c Hdne).
        cbn [andb]. rewrite discard_triples_eq, (eqb_false d c Hdne).
        reflexivity.
Qed.

Lemma unrecognized_codes_take_part_witness :
  (forall s, well_formed s ->
     three_in_a_row (array_set (prev_moves s) (prev_idx s) 9) = false ->
     prev_moves (loop_body s 9) = array_set (prev_moves s) (prev_idx s) 9
     /\ array_get (prev_moves (loop_body s 9)) (prev_idx s) = 9)
  /\ (~ recognized 9 ->
      (forall p, update_player p 9 = p)
      /\ effective_moves [9; 9] = present [9; 9]
      /\ effective_moves [9; 9; 9] = []
      /\ player (run_moves [9; 9; 9]) = player initial_state
      /\ effective_moves [1; 1; 1] = []
      /\ effective_moves [1; 1; 9; 1] = present [1; 1; 9; 1]).
Proof.
  apply (unrecognized_codes_take_part 9 1).
  - unfold is_char. lia.
  - unfold recognized. lia.
Defined.

(** ** The position *)

Lemma loop_body_in_grid (s : sim_state) (m : Z) :
  in_grid (player s) -> in_grid (player (loop_body s m)).
Proof.
  intros H. unfold loop_body.
  destruct (negb (char_of_int (array_get (prev_moves s) (prev_idx s)) =? -1));
    cbn [player call_update_player];
    [apply update_player_in_grid|]; exact H.
Qed.

Lemma flush_step_in_grid (s : sim_state) :
  in_grid (player s) -> in_grid (player (flush_step s)).
Proof.
  intros H. unfold flush_step.
  destruct (negb (char_of_int (array_get (prev_moves s) (prev_idx s)) =? -1));
    cbn [player call_update_player];
    [apply update_player_in_grid|]; exact H.
Qed.

Lemma process_moves_in_grid (moves : list Z) :
  forall s, in_grid (player s) -> in_grid (player (process_moves s moves)).
Proof.
  induction moves as [|m moves IH]; intros s H; simpl; [exact H|].
  apply IH, loop_body_in_grid, H.
Qed.

Lemma flush_in_grid (s : sim_state) :
  in_grid (player s) -> in_grid (player (flush s)).
Proof.
  intros H. unfold flush, for_loop.
  repeat apply flush_step_in_grid. exact H.
Qed.

(** C5. [update_player] keeps a position of the board on the board,
    whatever the move byte; hence, the player starting on the board, its
    position is on the board after every pass of the loop of [main] and
    after the final loop. *)
Theorem player_stays_in_grid (p : player_position_t) (m : Z) :
  in_grid p ->
  in_grid (update_player p m)
  /\ forall s moves,
       player s = p ->
       in_grid (player (process_moves s moves))
       /\ in_grid (player (flush (process_moves s moves))).
Proof.
  intros Hp. split; [apply update_player_in_grid; exact Hp|].
  intros s moves <-.
  split; [|apply flush_in_grid]; apply process_moves_in_grid; exact Hp.
Qed.

Lemma player_stays_in_grid_witness :
  in_grid (update_player {| x := 0; y := 4 |} 2)
  /\ forall s moves,
       player s = {| x := 0; y := 4 |} ->
       in_grid (player (process_moves s moves))
       /\ in_grid (player (flush (process_moves s moves))).
Proof.
  apply (player_stays_in_grid {| x := 0; y := 4 |} 2).
  unfold in_grid. simpl. lia.
Defined.

Lemma int_add_exact (a b : Z) :
  INT_MIN <= a + b <= INT_MAX -> int_add a b = a + b.
Proof. apply wrap_int_small. Qed.

Lemma int_sub_exact (a b : Z) :
  INT_MIN <= a - b <= INT_MAX -> int_sub a b = a - b.
Proof. apply wrap_int_small. Qed.

(** C9. Applying a move: byte 1 (Up) sets [y] to [clamp (y - 1) 0 4],
    byte 2 (Down) sets [y] to [clamp (y + 1) 0 4], byte 3 (Right) sets
    [x] to [clamp (x + 1) 0 4], byte 4 (Left) sets [x] to
    [clamp (x - 1) 0 4], and every other byte leaves the position
    unchanged. The position is any on which the increments do not
    overflow an [int]. *)
Theorem update_player_by_move (p : player_position_t) (m : Z) :
  no_overflow p ->
  (m = 1 -> update_player p m = {| x := x p; y := clamp (y p - 1) 0 4 |})
  /\ (m = 2 -> update_player p m = {| x := x p; y := clamp (y p + 1) 0 4 |})
  /\ (m = 3 -> update_player p m = {| x := clamp (x p + 1) 0 4; y := y p |})
  /\ (m = 4 -> update_player p m = {| x := clamp (x p - 1) 0 4; y := y p |})
  /\ (m <> 1 -> m <> 2 -> m <> 3 -> m <> 4 -> update_player p m = p).
Proof.
  intros [Hx Hy].
  repeat split; try (intros ->; cbn [update_player]).
  - rewrite int_sub_exact by lia. reflexivity.
  - rewrite int_add_exact by lia. reflexivity.
  - rewrite int_add_exact by lia. reflexivity.
  - rewrite int_sub_exact by lia. reflexivity.
  - intros H1 H2 H3 H4. apply update_player_unrecognized.
    unfold recognized. lia.
Qed.

Lemma update_player_by_move_witness :
  (1 = 1 -> update_player {| x := 2; y := 0 |} 1
            = {| x := 2; y := clamp (0 - 1) 0 4 |})
  /\ (1 = 2 -> update_player {| x := 2; y := 0 |} 1
               = {| x := 2; y := clamp (0 + 1) 0 4 |})
  /\ (1 = 3 -> update_player {| x := 2; y := 0 |} 1
               = {| x := clamp (2 + 1) 0 4; y := 0 |})
  /\ (1 = 4 -> update_player {| x := 2; y := 0 |} 1
               = {| x := clamp (2 - 1) 0 4; y := 0 |})
  /\ (1 <> 1 -> 1 <> 2 -> 1 <> 3 -> 1 <> 4 ->
      update_player {| x := 2; y := 0 |} 1 = {| x := 2; y := 0 |}).
Proof.
  apply (update_player_by_move {| x := 2; y := 0 |} 1).
  unfold no_overflow, INT_MIN, INT_MAX. simpl. lia.
Defined.

(** C10. [update_player] writes at most one coordinate: bytes 1 and 2
    leave [x] as it is, bytes 3 and 4 leave [y] as it is, and every
    other byte leaves both. *)
Theorem update_player_one_coordinate (p : player_position_t) (m : Z) :
  (m = 1 \/ m = 2 -> x (update_player p m) = x p)
  /\ (m = 3 \/ m = 4 -> y (update_player p m) = y p)
  /\ (m <> 1 -> m <> 2 -> m <> 3 -> m <> 4 -> update_player p m = p)
  /\ (x (update_player p m) = x p \/ y (update_player p m) = y p).
Proof.
  repeat split.
  - intros [-> | ->]; reflexivity.
  - intros [-> | ->]; reflexivity.
  - intros H1 H2 H3 H4. apply update_player_unrecognized.
    unfold recognized. lia.
  - destruct (Z.eq_dec m 1) as [-> | H1]; [left; reflexivity|].
    destruct (Z.eq_dec m 2) as [-> | H2]; [left; reflexivity|].
    destruct (Z.eq_dec m 3) as [-> | H3]; [right; reflexivity|].
    destruct (Z.eq_dec m 4) as [-> | H4]; [right; reflexivity|].
    left. rewrite update_player_unrecognized; [reflexivity|].
    unfold recognized. lia.
Qed.

Lemma update_player_one_coordinate_witness :
  (3 = 1 \/ 3 = 2 -> x (update_player {| x := 4; y := 2 |} 3) = 4)
  /\ (3 = 3 \/ 3 = 4 -> y (update_player {| x := 4; y := 2 |} 3) = 2)
  /\ (3 <> 1 -> 3 <> 2 -> 3 <> 3 -> 3 <> 4 ->
      update_player {| x := 4; y := 2 |} 3 = {| x := 4; y := 2 |})
  /\ (x (update_player {| x := 4; y := 2 |} 3) = 4
      \/ y (update_player {| x := 4; y := 2 |} 3) = 2).
Proof.
  exact (update_player_one_coordinate {| x := 4; y := 2 |} 3).
Defined.

(** ** The scanner *)

Section ScannerProperties.

Variable YAHDLC_FLAG_SEQUENCE : Z.
Variable yahdlc_control_t : Type.
Variable frame : yahdlc_control_t -> Z.
Variable yahdlc_state : Type.
Variable yahdlc_get_data :
  yahdlc_state -> yahdlc_control_t -> list Z -> Z -> list Z -> Z ->
  get_data_result yahdlc_control_t yahdlc_state.

Local Abbreviation decode := (decode_span yahdlc_control_t yahdlc_state yahdlc_get_data).
Local Abbreviation scan :=
  (next_move_loop YAHDLC_FLAG_SEQUENCE yahdlc_control_t frame yahdlc_state
                  yahdlc_get_data).
Local Abbreviation pull :=
  (next_move YAHDLC_FLAG_SEQUENCE yahdlc_control_t frame yahdlc_state
             yahdlc_get_data).
Local Abbreviation drive :=
  (main_loop YAHDLC_FLAG_SEQUENCE yahdlc_control_t frame yahdlc_state
             yahdlc_get_data).
Local Abbreviation yielded :=
  (decoded_moves YAHDLC_FLAG_SEQUENCE yahdlc_control_t frame yahdlc_state
                 yahdlc_get_data).
Local Abbreviation program :=
  (main YAHDLC_FLAG_SEQUENCE yahdlc_control_t frame yahdlc_state
        yahdlc_get_data).
Local Abbreviation World := (world yahdlc_control_t yahdlc_state).

(** The world after a call of the decoder that returned. *)
Local Abbreviation after_decode iter w :=
  {| control := control_out (decode iter w);
     lib_state := state_out (decode iter w);
     decodes := decodes w ++ [ret (decode iter w)] |}.

Lemma iter_ok_uint (iter : move_iterator_t) :
  iter_ok iter -> to_uint (end_ iter) = end_ iter.
Proof.
  unfold iter_ok, INT_MAX. intros [H1 H2]. apply to_uint_small. lia.
Qed.

(** The three ways through one iteration of the loop of [next_move]. *)
Lemma scan_behind_buffer (fuel : nat) (iter : move_iterator_t) (w : World) :
  iter_ok iter -> data_len iter <= end_ iter ->
  scan (S fuel) iter w = Returned (0, iter, w).
Proof.
  intros Hok Hend. cbn [next_move_loop]. rewrite (iter_ok_uint iter Hok).
  destruct (Z.ltb_spec (end_ iter) (data_len iter)); [lia | reflexivity].
Qed.

Lemma scan_no_flag (fuel : nat) (iter : move_iterator_t) (w : World) :
  iter_ok iter -> end_ iter < data_len iter ->
  array_get (data iter) (end_ iter) <> YAHDLC_FLAG_SEQUENCE ->
  scan (S fuel) iter w
  = scan fuel (advance iter (start iter) (end_ iter + 1)
                       (output iter) (output_len iter)) w.
Proof.
  intros Hok Hend Hflag. cbn [next_move_loop]. rewrite (iter_ok_uint iter Hok).
  destruct (Z.ltb_spec (end_ iter) (data_len iter)); [|lia].
  rewrite (eqb_false _ _ Hflag).
  rewrite int_add_exact; [reflexivity|].
  unfold iter_ok, INT_MAX, INT_MIN in *. lia.
Qed.

Lemma scan_failed_decode (fuel : nat) (iter : move_iterator_t) (w : World) :
  iter_ok iter -> end_ iter < data_len iter ->
  array_get (data iter) (end_ iter) = YAHDLC_FLAG_SEQUENCE ->
  ret (decode iter w) < 0 ->
  scan (S fuel) iter w
  = Exited 1 [Print_yahdlc_error (ret (decode iter w))]
           (decodes w ++ [ret (decode iter w)]).
Proof.
  intros Hok Hend Hflag Hret. cbn [next_move_loop].
  rewrite (iter_ok_uint iter Hok).
  destruct (Z.ltb_spec (end_ iter) (data_len iter)); [|lia].
  rewrite Hflag, Z.eqb_refl.
  destruct (Z.ltb_spec (ret (decode iter w)) 0); [reflexivity | lia].
Qed.

Lemma scan_decoded (fuel : nat) (iter : move_iterator_t) (w : World) :
  iter_ok iter -> end_ iter < data_len iter ->
  array_get (data iter) (end_ iter) = YAHDLC_FLAG_SEQUENCE ->
  0 <= ret (decode iter w) ->
  scan (S fuel) iter w
  = let iter' := advance iter (end_ iter + 1) (end_ iter + 2)
                         (dest_out (decode iter w))
                         (dest_len_out (decode iter w)) in
    if negb (frame (control_out (decode iter w)) =? 0)
    then scan fuel iter' (after_decode iter w)
    else Returned (1, iter', after_decode iter w).
Proof.
  intros Hok Hend Hflag Hret. cbn [next_move_loop].
  rewrite (iter_ok_uint iter Hok).
  destruct (Z.ltb_spec (end_ iter) (data_len iter)); [|lia].
  rewrite Hflag, Z.eqb_refl.
  destruct (Z.ltb_spec (ret (decode iter w)) 0); [lia|].
  rewrite !int_add_exact; [reflexivity | |];
    unfold iter_ok, INT_MAX, INT_MIN in *; lia.
Qed.

(** The log of decoder results: while the program runs no call has
    failed, and when it exits a call has just failed. *)
Lemma scan_log (fuel : nat) :
  forall (iter : move_iterator_t) (w : World),
    clean (decodes w) ->
    match scan fuel iter w with
    | Returned (_, _, w') => clean (decodes w')
    | Exited status out log => fatal_exit status out log
    | Out_of_fuel => True
    end.
Proof.
  induction fuel as [|fuel IH]; intros iter w Hw; cbn [next_move_loop];
    [exact I|].
  destruct (to_uint (end_ iter) <? data_len iter); [|exact Hw].
  destruct (array_get (data iter) (end_ iter) =? YAHDLC_FLAG_SEQUENCE);
    [|apply IH; exact Hw].
  destruct (Z.ltb_spec (ret (decode iter w)) 0) as [Hneg|Hpos].
  - split; [reflexivity|].
    exists (ret (decode iter w)), (decodes w). repeat split; assumption.
  - assert (Hw' : clean (decodes w ++ [ret (decode iter w)])).
    { apply Forall_app. split; [exact Hw|]. constructor; [exact Hpos|constructor]. }
    cbn [control].
    destruct (negb (frame (control_out (decode iter w)) =? 0));
      [apply IH|]; exact Hw'.
Qed.

Lemma drive_log (fuel : nat) :
  forall (iter : move_iterator_t) (w : World) (s : sim_state),
    clean (decodes w) ->
    match drive fuel iter w s with
    | Returned (_, _, w') => clean (decodes w')
    | Exited status out log => fatal_exit status out log
    | Out_of_fuel => True
    end.
Proof.
  induction fuel as [|fuel IH]; intros iter w s Hw; cbn [main_loop];
    [exact I|].
  pose proof (scan_log (S (Z.to_nat (data_len iter))) iter w Hw) as Hscan.
  unfold next_move.
  destruct (scan (S (Z.to_nat (data_len iter))) iter w)
    as [[[run iter'] w']|status out log|]; [|exact Hscan|exact I].
  destruct (run =? 0); [exact Hscan|]. apply IH. exact Hscan.
Qed.

(** The loop of [next_move] ends within the fuel it is given. *)
Lemma scan_total (fuel : nat) :
  forall (iter : move_iterator_t) (w : World),
    iter_ok iter ->
    (Z.to_nat (data_len iter - end_ iter) < fuel)%nat ->
    match scan fuel iter w with
    | Returned (run, iter', w') =>
      iter_ok iter' /\ data_len iter' = data_len iter
      /\ (run = 0
          \/ (run = 1 /\ end_ iter < data_len iter
              /\ end_ iter + 2 <= end_ iter'))
    | Exited _ _ _ => True
    | Out_of_fuel => False
    end.
Proof.
  induction fuel as [|fuel IH]; intros iter w Hok Hfuel; [lia|].
  destruct (Z.lt_ge_cases (end_ iter) (data_len iter)) as [Hin|Hout].
  - destruct (Z.eq_dec (array_get (data iter) (end_ iter)) YAHDLC_FLAG_SEQUENCE)
      as [Hflag|Hflag].
    + destruct (Z.lt_ge_cases (ret (decode iter w)) 0) as [Hneg|Hpos].
      * rewrite scan_failed_decode by assumption. exact I.
      * rewrite scan_decoded by assumption. cbv zeta.
        destruct (negb (frame (control_out (decode iter w)) =? 0)).
        -- match goal with
           | |- context [scan fuel ?it ?wd] =>
             pose proof (IH it wd) as Hrec;
             destruct (scan fuel it wd) as [[[run iter'] w']|status out log|]
           end.
           ++ destruct Hrec as (Hok' & Hlen & Hrun).
              ** unfold iter_ok in *. cbn [advance end_ data_len]. lia.
              ** cbn [advance end_ data_len]. lia.
              ** cbn [advance end_ data_len] in Hlen, Hrun.
                 split; [exact Hok'|]. split; [exact Hlen|].
                 destruct Hrun as [H0|(H1 & _ & Hend)]; [left; exact H0|].
                 right. repeat split; [exact H1 | exact Hin | lia].
           ++ exact I.
           ++ apply Hrec.
              ** unfold iter_ok in *. cbn [advance end_ data_len]. lia.
              ** cbn [advance end_ data_len]. lia.
        -- unfold iter_ok in *. cbn [advance end_ data_len].
           repeat split; lia.
    + rewrite scan_no_flag by assumption.
      match goal with
      | |- context [scan fuel ?it ?wd] =>
        pose proof (IH it wd) as Hrec;
        destruct (scan fuel it wd) as [[[run iter'] w']|status out log|]
      end.
      * destruct Hrec as (Hok' & Hlen & Hrun).
        -- unfold iter_ok in *. cbn [advance end_ data_len]. lia.
        -- cbn [advance end_ data_len]. lia.
        -- cbn [advance end_ data_len] in Hlen, Hrun.
           split; [exact Hok'|]. split; [exact Hlen|].
           destruct Hrun as [H0|(H1 & _ & Hend)]; [left; exact H0|].
           right. repeat split; [exact H1 | exact Hin | lia].
      * exact I.
      * apply Hrec.
        -- unfold iter_ok in *. cbn [advance end_ data_len]. lia.
        -- cbn [advance end_ data_len]. lia.
  - rewrite scan_behind_buffer by assumption.
    split; [exact Hok|]. split; [reflexivity|]. left. reflexivity.
Qed.

Lemma pull_total (iter : move_iterator_t) (w : World) :
  iter_ok iter ->
  match pull iter w with
  | Returned (run, iter', w') =>
    iter_ok iter' /\ data_len iter' = data_len iter
    /\ (run = 0
        \/ (run = 1 /\ end_ iter < data_len iter
            /\ end_ iter + 2 <= end_ iter'))
  | Exited _ _ _ => True
  | Out_of_fuel => False
  end.
Proof.
  intros Hok. unfold next_move. apply scan_total; [exact Hok|].
  unfold iter_ok in Hok. lia.
Qed.

(** The loop of [main] ends within the fuel it is given. *)
Lemma drive_total (fuel : nat) :
  forall (iter : move_iterator_t) (w : World) (s : sim_state),
    iter_ok iter ->
    (Z.to_nat (data_len iter - end_ iter) < fuel)%nat ->
    drive fuel iter w s <> Out_of_fuel.
Proof.
  induction fuel as [|fuel IH]; intros iter w s Hok Hfuel; [lia|].
  cbn [main_loop]. pose proof (pull_total iter w Hok) as Hpull.
  destruct (pull iter w) as [[[run iter'] w']|status out log|];
    [|discriminate|contradiction].
  destruct Hpull as (Hok' & Hlen & [-> | (-> & Hin & Hend)]);
    [discriminate|].
  cbn [Z.eqb]. apply IH.
  - unfold iter_ok in *. cbn [advance end_ data_len]. exact Hok'.
  - cbn [advance end_ data_len]. lia.
Qed.

(** The loop of [main] is its body folded over the moves that the
    iterator yields. *)
Lemma drive_yielded (fuel : nat) :
  forall (iter : move_iterator_t) (w : World) (s : sim_state),
    drive fuel iter w s
    = match yielded fuel iter w with
      | Returned (moves, iter', w') =>
        Returned (process_moves s moves, iter', w')
      | Exited status out log => Exited status out log
      | Out_of_fuel => Out_of_fuel
      end.
Proof.
  induction fuel as [|fuel IH]; intros iter w s;
    cbn [main_loop decoded_moves]; [reflexivity|].
  destruct (pull iter w) as [[[run iter'] w']|status out log|];
    try reflexivity.
  destruct (run =? 0); [reflexivity|].
  rewrite IH.
  match goal with
  | |- context [yielded fuel ?it ?wd] =>
    destruct (yielded fuel it wd) as [[[ms iter''] w'']|status out log|]
  end; reflexivity.
Qed.

(** More fuel than needed changes nothing. *)
Lemma scan_more_fuel (fuel : nat) :
  forall (iter : move_iterator_t) (w : World),
    scan fuel iter w <> Out_of_fuel ->
    scan (S fuel) iter w = scan fuel iter w.
Proof.
  induction fuel as [|fuel IH]; intros iter w H;
    [exfalso; apply H; reflexivity|].
  cbn [next_move_loop] in H |- *.
  destruct (to_uint (end_ iter) <? data_len iter); [|reflexivity].
  destruct (array_get (data iter) (end_ iter) =? YAHDLC_FLAG_SEQUENCE).
  - destruct (ret (decode iter w) <? 0); [reflexivity|].
    cbn [control] in H |- *.
    destruct (negb (frame (control_out (decode iter w)) =? 0));
      [|reflexivity].
    apply IH. exact H.
  - apply IH. exact H.
Qed.

(** C7. After a successful decode the scanner sets [start] to
    [end + 1] and [end] to [end + 2]: the byte after the sentinel is not
    compared with the flag. When the frame is a control frame
    ([control->frame] is not 0) [next_move] yields nothing and goes on
    scanning from there; when it is a data frame [next_move] returns 1
    and [main] takes [output[0]], the first byte that the decoder wrote,
    as the move. *)
Theorem successful_decode_advances_scanner
        (iter : move_iterator_t) (w : World) :
  iter_ok iter -> end_ iter < data_len iter ->
  array_get (data iter) (end_ iter) = YAHDLC_FLAG_SEQUENCE ->
  0 <= ret (decode iter w) ->
  exists iter',
    start iter' = end_ iter + 1
    /\ end_ iter' = end_ iter + 2
    /\ data iter' = data iter /\ data_len iter' = data_len iter
    /\ output iter' = dest_out (decode iter w)
    /\ (frame (control_out (decode iter w)) <> 0 ->
        pull iter w = pull iter' (after_decode iter w))
    /\ (frame (control_out (decode iter w)) = 0 ->
        pull iter w = Returned (1, iter', after_decode iter w)
        /\ forall fuel,
            yielded (S fuel) iter w
            = match yielded fuel
                      (advance iter' (start iter') (end_ iter')
                               (output iter') 0)
                      (after_decode iter w) with
              | Returned (moves, iter'', w'') =>
                Returned (array_get (dest_out (decode iter w)) 0 :: moves,
                          iter'', w'')
              | Exited status out log => Exited status out log
              | Out_of_fuel => Out_of_fuel
              end).
Proof.
  intros Hok Hin Hflag Hret.
  exists (advance iter (end_ iter + 1) (end_ iter + 2)
                  (dest_out (decode iter w)) (dest_len_out (decode iter w))).
  repeat (split; [reflexivity|]).
  assert (Hpull : pull iter w
                  = scan (S (Z.to_nat (data_len iter))) iter w) by reflexivity.
  rewrite scan_decoded in Hpull by assumption. cbv zeta in Hpull.
  split.
  - intros Hctl. rewrite Hpull, (eqb_false _ _ Hctl). cbn [negb].
    unfold next_move. cbn [advance data_len]. symmetry.
    apply scan_more_fuel.
    match goal with
    | |- scan ?f ?it ?wd <> _ =>
      pose proof (scan_total f it wd) as Htot;
      destruct (scan f it wd) as [[[run iter'] w']|status out log|]
    end; try discriminate.
    exfalso. apply Htot.
    + unfold iter_ok in *. cbn [advance end_ data_len]. lia.
    + unfold iter_ok in *. cbn [advance end_ data_len]. lia.
  - intros Hctl. rewrite Hctl in Hpull. cbn [negb Z.eqb] in Hpull.
    split; [exact Hpull|].
    intros fuel. cbn [decoded_moves]. rewrite Hpull. reflexivity.
Qed.

(** Where [main] starts the scan. *)
Lemma iter_ok_initial (buffer output_buffer : list Z) :
  Z.of_nat (length buffer) <= INT_MAX - 1 ->
  iter_ok {| start := 0; end_ := 1; data := buffer;
             data_len := to_uint (Z.of_nat (length buffer));
             output := output_buffer; output_len := 0 |}.
Proof.
  intros H. unfold iter_ok. cbn [end_ data_len].
  rewrite to_uint_small by (unfold INT_MAX in H; lia). lia.
Qed.

(** [main] ends, whatever the file holds. *)
Lemma program_total (buffer output_buffer : list Z)
      (control0 : yahdlc_control_t) (lib0 : yahdlc_state) :
  Z.of_nat (length buffer) <= INT_MAX - 1 ->
  program buffer output_buffer control0 lib0 <> None.
Proof.
  intros H. unfold main.
  match goal with
  | |- context [drive ?f ?it ?wd ?st] =>
    pose proof (drive_total f it wd st (iter_ok_initial _ _ H)) as Htot;
    destruct (drive f it wd st) as [[[s iter'] w']|status out log|]
  end; try discriminate.
  exfalso. apply Htot; [|reflexivity].
  cbn [end_ data_len].
  rewrite to_uint_small by (unfold INT_MAX in H; lia). lia.
Qed.

(** C6. When a call of the decoder returns a negative value the run
    stops there: the failing call is the last one, the process exits
    with status 1 and the error message is all it prints, so the line
    with the position is never printed. When no call fails the run
    ends with status 0 and prints the position. *)
Theorem decode_error_is_fatal
        (buffer output_buffer : list Z)
        (control0 : yahdlc_control_t) (lib0 : yahdlc_state) :
  Z.of_nat (length buffer) <= INT_MAX - 1 ->
  (forall fuel iter w,
      iter_ok iter -> end_ iter < data_len iter ->
      array_get (data iter) (end_ iter) = YAHDLC_FLAG_SEQUENCE ->
      ret (decode iter w) < 0 ->
      scan (S fuel) iter w
      = Exited 1 [Print_yahdlc_error (ret (decode iter w))]
               (decodes w ++ [ret (decode iter w)]))
  /\ exists t,
      program buffer output_buffer control0 lib0 = Some t
      /\ ((exists r, In r (decode_log t) /\ r < 0) ->
          fatal_exit (exit_status t) (stdout t) (decode_log t)
          /\ exit_status t <> 0
          /\ (forall px py, ~ In (Print_player_position px py) (stdout t))
          /\ final_state t = None)
      /\ ((forall r, In r (decode_log t) -> 0 <= r) ->
          exit_status t = 0
          /\ exists s,
              final_state t = Some s
              /\ stdout t
                 = [Print_player_position (x (player s)) (y (player s))]).
Proof.
  intros H. split; [intros; apply scan_failed_decode; assumption|].
  pose proof (program_total buffer output_buffer control0 lib0 H) as Htot.
  unfold main in *.
  match goal with
  | |- context [drive ?f ?it ?wd ?st] =>
    pose proof (drive_log f it wd st) as Hlog;
    destruct (drive f it wd st) as [[[s iter'] w']|status out log|]
  end; [| |contradiction].
  - eexists. split; [reflexivity|]. cbn [decode_log exit_status stdout final_state].
    assert (Hclean : clean (decodes w')) by (apply Hlog; constructor).
    split.
    + intros (r & Hin & Hneg). exfalso.
      unfold clean in Hclean. rewrite Forall_forall in Hclean.
      specialize (Hclean r Hin). lia.
    + intros _. split; [reflexivity|]. eexists. split; reflexivity.
  - eexists. split; [reflexivity|]. cbn [decode_log exit_status stdout final_state].
    assert (Hfatal : fatal_exit status out log) by (apply Hlog; constructor).
    split.
    + intros _. split; [exact Hfatal|].
      destruct Hfatal as (-> & r & pre & Hneg & -> & -> & Hpre).
      split; [discriminate|]. split; [|reflexivity].
      intros px py [Habs|[]]. discriminate Habs.
    + intros Hall. exfalso.
      destruct Hfatal as (_ & r & pre & Hneg & _ & -> & _).
      specialize (Hall r). rewrite in_app_iff in Hall.
      assert (0 <= r) by (apply Hall; right; left; reflexivity). lia.
Qed.

(** When every frame decodes, [main] prints the position reached by
    the filter on the moves that the iterator yields. *)
Lemma program_prints_run_position
      (buffer output_buffer : list Z)
      (control0 : yahdlc_control_t) (lib0 : yahdlc_state)
      (moves : list Z) (iter' : move_iterator_t) (w' : World) :
  yielded (S (length buffer))
          {| start := 0; end_ := 1; data := buffer;
             data_len := to_uint (Z.of_nat (length buffer));
             output := output_buffer; output_len := 0 |}
          {| control := control0; lib_state := lib0; decodes := [] |}
  = Returned (moves, iter', w') ->
  program buffer output_buffer control0 lib0
  = Some {| exit_status := 0;
            stdout := [Print_player_position (x (player (run_moves moves)))
                                             (y (player (run_moves moves)))];
            decode_log := decodes w';
            final_state := Some (run_moves moves) |}.
Proof.
  intros Hy. unfold main. rewrite drive_yielded, Hy. reflexivity.
Qed.

(** The position that [main] prints is on the board. *)
Lemma drive_in_grid (fuel : nat) :
  forall (iter : move_iterator_t) (w : World) (s : sim_state),
    in_grid (player s) ->
    match drive fuel iter w s with
    | Returned (s', _, _) => in_grid (player s')
    | Exited _ _ _ => True
    | Out_of_fuel => True
    end.
Proof.
  induction fuel as [|fuel IH]; intros iter w s Hs; cbn [main_loop];
    [exact I|].
  destruct (pull iter w) as [[[run iter'] w']|status out log|];
    [|exact I|exact I].
  destruct (run =? 0); [exact Hs|].
  apply IH, loop_body_in_grid, Hs.
Qed.

Lemma program_position_in_grid
      (buffer output_buffer : list Z)
      (control0 : yahdlc_control_t) (lib0 : yahdlc_state)
      (t : termination) (px py : Z) :
  program buffer output_buffer control0 lib0 = Some t ->
  In (Print_player_position px py) (stdout t) ->
  0 <= px <= 4 /\ 0 <= py <= 4.
Proof.
  unfold main.
  match goal with
  | |- context [drive ?f ?it ?wd ?st] =>
    pose proof (drive_log f it wd st) as Hlog;
    pose proof (drive_in_grid f it wd st) as Hgrid;
    destruct (drive f it wd st) as [[[s iter'] w']|status out log|]
  end; [| |discriminate].
  - cbv zeta.
    assert (Hs : in_grid (player (flush s))).
    { apply flush_in_grid, Hgrid. unfold in_grid. cbn. lia. }
    revert Hs. generalize (flush s). intros s' [Hx Hy].
    intros [= <-]. cbn [stdout]. intros [[= <- <-]|[]].
    split; assumption.
  - intros [= <-]. cbn [stdout]. intros Hin. exfalso.
    destruct Hlog as (_ & r & pre & _ & -> & _); [constructor|].
    destruct Hin as [Habs|[]]. discriminate Habs.
Qed.

End ScannerProperties.

Lemma successful_decode_advances_scanner_witness :
  exists iter',
    start iter' = end_ toy_iter + 1
    /\ end_ iter' = end_ toy_iter + 2
    /\ data iter' = data toy_iter /\ data_len iter' = data_len toy_iter
    /\ output iter' = dest_out (toy_decode_span toy_iter toy_world)
    /\ (toy_kind (control_out (toy_decode_span toy_iter toy_world)) <> 0 ->
        toy_next_move toy_iter toy_world
        = toy_next_move iter'
            {| control := control_out (toy_decode_span toy_iter toy_world);
               lib_state := state_out (toy_decode_span toy_iter toy_world);
               decodes := decodes toy_world
                          ++ [ret (toy_decode_span toy_iter toy_world)] |})
    /\ (toy_kind (control_out (toy_decode_span toy_iter toy_world)) = 0 ->
        toy_next_move toy_iter toy_world
        = Returned
            (1, iter',
             {| control := control_out (toy_decode_span toy_iter toy_world);
                lib_state := state_out (toy_decode_span toy_iter toy_world);
                decodes := decodes toy_world
                           ++ [ret (toy_decode_span toy_iter toy_world)] |})
        /\ forall fuel,
            toy_decoded_moves (S fuel) toy_iter toy_world
            = match toy_decoded_moves fuel
                      (advance iter' (start iter') (end_ iter')
                               (output iter') 0)
                      {| control :=
                           control_out (toy_decode_span toy_iter toy_world);
                         lib_state :=
                           state_out (toy_decode_span toy_iter toy_world);
                         decodes :=
                           decodes toy_world
                           ++ [ret (toy_decode_span toy_iter toy_world)] |}
              with
              | Returned (moves, iter'', w'') =>
                Returned
                  (array_get (dest_out (toy_decode_span toy_iter toy_world)) 0
                     :: moves, iter'', w'')
              | Exited status out log => Exited status out log
              | Out_of_fuel => Out_of_fuel
              end).
Proof.
  apply (successful_decode_advances_scanner
           toy_flag Z toy_kind unit toy_get_data toy_iter toy_world).
  - unfold iter_ok, INT_MAX. simpl. lia.
  - simpl. lia.
  - reflexivity.
  - vm_compute. discriminate.
Defined.

Lemma decode_error_is_fatal_witness :
  (forall fuel iter w,
      iter_ok iter -> end_ iter < data_len iter ->
      array_get (data iter) (end_ iter) = toy_flag ->
      ret (toy_decode_span iter w) < 0 ->
      toy_next_move_loop (S fuel) iter w
      = Exited 1 [Print_yahdlc_error (ret (toy_decode_span iter w))]
               (decodes w ++ [ret (toy_decode_span iter w)]))
  /\ exists t,
      toy_main toy_bad_log = Some t
      /\ ((exists r, In r (decode_log t) /\ r < 0) ->
          fatal_exit (exit_status t) (stdout t) (decode_log t)
          /\ exit_status t <> 0
          /\ (forall px py, ~ In (Print_player_position px py) (stdout t))
          /\ final_state t = None)
      /\ ((forall r, In r (decode_log t) -> 0 <= r) ->
          exit_status t = 0
          /\ exists s,
              final_state t = Some s
              /\ stdout t
                 = [Print_player_position (x (player s)) (y (player s))]).
Proof.
  apply (decode_error_is_fatal
           toy_flag Z toy_kind unit toy_get_data
           toy_bad_log (repeat 0 (length toy_bad_log)) 0 tt).
  vm_compute. discriminate.
Defined.

(* ================================================================= *)
(** * Part III: further properties of the program *)

(** ** [clamp] *)

(** X1. For bounds in order, [clamp] returns a value between them, it
    is the identity exactly on the values between them, it is
    idempotent and monotone, and it is [max lo (min v hi)]. *)
Theorem clamp_properties (v v' lo hi : Z) :
  lo <= hi ->
  lo <= clamp v lo hi <= hi
  /\ (clamp v lo hi = v <-> lo <= v <= hi)
  /\ clamp (clamp v lo hi) lo hi = clamp v lo hi
  /\ (v <= v' -> clamp v lo hi <= clamp v' lo hi)
  /\ clamp v lo hi = Z.max lo (Z.min v hi).
Proof.
  intros H. unfold clamp.
  destruct (Z.ltb_spec v lo); destruct (Z.gtb_spec v hi);
    destruct (Z.ltb_spec v' lo); destruct (Z.gtb_spec v' hi);
    repeat match goal with
           | |- context [?a <? ?b] => destruct (Z.ltb_spec a b)
           | |- context [?a >? ?b] => destruct (Z.gtb_spec a b)
           end;
    repeat split; intros; lia.
Qed.

Lemma clamp_properties_witness :
  0 <= clamp 7 0 4 <= 4
  /\ (clamp 7 0 4 = 7 <-> 0 <= 7 <= 4)
  /\ clamp (clamp 7 0 4) 0 4 = clamp 7 0 4
  /\ (7 <= 9 -> clamp 7 0 4 <= clamp 9 0 4)
  /\ clamp 7 0 4 = Z.max 0 (Z.min 7 4).
Proof. apply (clamp_properties 7 9 0 4). lia. Defined.

(** ** [update_player] on the board *)

Lemma update_player_on_board (p : player_position_t) :
  in_grid p ->
  update_player p 1 = {| x := x p; y := Z.max 0 (y p - 1) |}
  /\ update_player p 2 = {| x := x p; y := Z.min 4 (y p + 1) |}
  /\ update_player p 3 = {| x := Z.min 4 (x p + 1); y := y p |}
  /\ update_player p 4 = {| x := Z.max 0 (x p - 1); y := y p |}.
Proof.
  unfold in_grid. intros [Hx Hy]. cbn [update_player].
  rewrite !int_sub_exact, !int_add_exact
    by (unfold INT_MIN, INT_MAX; lia).
  rewrite !clamp_max_min by lia.
  repeat split; f_equal; lia.
Qed.

Lemma update_player_target (p : player_position_t) (m : Z) :
  in_grid p ->
  (in_grid (target p m) -> update_player p m = target p m)
  /\ (~ in_grid (target p m) -> update_player p m = p).
Proof.
  intros Hp.
  destruct (update_player_on_board p Hp) as (H1 & H2 & H3 & H4).
  destruct p as [px py]. unfold in_grid in *. cbn [x y] in *.
  destruct (Z.eq_dec m 1) as [-> | N1];
    [rewrite H1; cbn [target x y]; split; intros; f_equal; lia|].
  destruct (Z.eq_dec m 2) as [-> | N2];
    [rewrite H2; cbn [target x y]; split; intros; f_equal; lia|].
  destruct (Z.eq_dec m 3) as [-> | N3];
    [rewrite H3; cbn [target x y]; split; intros; f_equal; lia|].
  destruct (Z.eq_dec m 4) as [-> | N4];
    [rewrite H4; cbn [target x y]; split; intros; f_equal; lia|].
  assert (Hu : ~ recognized m) by (unfold recognized; lia).
  rewrite (update_player_unrecognized _ m Hu).
  split; [|reflexivity].
  intros _. symmetry.
  destruct m as [|q|q]; try reflexivity.
  destruct q as [[q|q|]|[q|[q|q|]|]|]; try reflexivity; lia.
Qed.

(** X2. A move that would take the player off the board is discarded:
    on the board, [update_player] moves the player to the cell the move
    points to when that cell is on the board, and leaves the player
    where it is otherwise. *)
Theorem illegal_move_is_discarded (p : player_position_t) (m : Z) :
  in_grid p ->
  (in_grid (target p m) -> update_player p m = target p m)
  /\ (~ in_grid (target p m) -> update_player p m = p).
Proof. apply update_player_target. Qed.

Lemma illegal_move_is_discarded_witness :
  (in_grid (target {| x := 0; y := 4 |} 2) ->
   update_player {| x := 0; y := 4 |} 2 = target {| x := 0; y := 4 |} 2)
  /\ (~ in_grid (target {| x := 0; y := 4 |} 2) ->
      update_player {| x := 0; y := 4 |} 2 = {| x := 0; y := 4 |}).
Proof.
  apply (illegal_move_is_discarded {| x := 0; y := 4 |} 2).
  unfold in_grid. simpl. lia.
Defined.

(** X3. On the board a move that is not discarded is undone by the
    move that points the other way. *)
Theorem legal_move_is_undone_by_opposite (p : player_position_t) (m : Z) :
  in_grid p -> recognized m -> in_grid (target p m) ->
  update_player (update_player p m) (opposite m) = p.
Proof.
  intros Hp Hm Ht.
  destruct (update_player_target p m Hp) as [Hlegal _].
  rewrite (Hlegal Ht).
  destruct (update_player_on_board (target p m) Ht) as (H1 & H2 & H3 & H4).
  destruct p as [px py]. unfold in_grid in *.
  destruct Hm as [-> | [-> | [-> | ->]]]; cbn [opposite target x y] in *.
  - rewrite H2. cbn [x y]. f_equal. lia.
  - rewrite H1. cbn [x y]. f_equal. lia.
  - rewrite H4. cbn [x y]. f_equal. lia.
  - rewrite H3. cbn [x y]. f_equal. lia.
Qed.

Lemma legal_move_is_undone_by_opposite_witness :
  update_player (update_player {| x := 0; y := 4 |} 1) (opposite 1)
  = {| x := 0; y := 4 |}.
Proof.
  apply (legal_move_is_undone_by_opposite {| x := 0; y := 4 |} 1).
  - unfold in_grid. simpl. lia.
  - unfold recognized. lia.
  - unfold in_grid. simpl. lia.
Defined.

(** X4. A vertical move and a horizontal move can be applied in either
    order, wherever the player is. *)
Theorem moves_on_different_axes_commute
        (p : player_position_t) (v h : Z) :
  v = 1 \/ v = 2 -> h = 3 \/ h = 4 ->
  update_player (update_player p v) h = update_player (update_player p h) v.
Proof.
  intros [-> | ->] [-> | ->]; reflexivity.
Qed.

Lemma moves_on_different_axes_commute_witness :
  update_player (update_player {| x := 4; y := 0 |} 1) 3
  = update_player (update_player {| x := 4; y := 0 |} 3) 1.
Proof.
  apply (moves_on_different_axes_commute {| x := 4; y := 0 |} 1 3); lia.
Defined.

(** X5. On the board, [n] moves in one direction take the player [n]
    cells that way and no further than the edge. *)
Theorem repeated_move_stops_at_edge (p : player_position_t) (n : nat) :
  in_grid p ->
  fold_left update_player (repeat 1 n) p
  = {| x := x p; y := Z.max 0 (y p - Z.of_nat n) |}
  /\ fold_left update_player (repeat 2 n) p
     = {| x := x p; y := Z.min 4 (y p + Z.of_nat n) |}
  /\ fold_left update_player (repeat 3 n) p
     = {| x := Z.min 4 (x p + Z.of_nat n); y := y p |}
  /\ fold_left update_player (repeat 4 n) p
     = {| x := Z.max 0 (x p - Z.of_nat n); y := y p |}.
Proof.
  revert p. induction n as [|n IH]; intros p Hp.
  - destruct p as [px py]. unfold in_grid in Hp. cbn [x y] in *.
    cbn [repeat fold_left]. repeat split; f_equal; lia.
  - destruct (update_player_on_board p Hp) as (H1 & H2 & H3 & H4).
    cbn [repeat fold_left].
    destruct (IH _ (update_player_in_grid p 1 Hp)) as (I1 & _).
    destruct (IH _ (update_player_in_grid p 2 Hp)) as (_ & I2 & _).
    destruct (IH _ (update_player_in_grid p 3 Hp)) as (_ & _ & I3 & _).
    destruct (IH _ (update_player_in_grid p 4 Hp)) as (_ & _ & _ & I4).
    rewrite I1, I2, I3, I4, H1, H2, H3, H4. cbn [x y].
    unfold in_grid in Hp.
    repeat split; f_equal; lia.
Qed.

Lemma repeated_move_stops_at_edge_witness :
  fold_left update_player (repeat 1 7) {| x := 0; y := 4 |}
  = {| x := 0; y := Z.max 0 (4 - Z.of_nat 7) |}
  /\ fold_left update_player (repeat 2 7) {| x := 0; y := 4 |}
     = {| x := 0; y := Z.min 4 (4 + Z.of_nat 7) |}
  /\ fold_left update_player (repeat 3 7) {| x := 0; y := 4 |}
     = {| x := Z.min 4 (0 + Z.of_nat 7); y := 4 |}
  /\ fold_left update_player (repeat 4 7) {| x := 0; y := 4 |}
     = {| x := Z.max 0 (0 - Z.of_nat 7); y := 4 |}.
Proof.
  apply (repeated_move_stops_at_edge {| x := 0; y := 4 |} 7).
  unfold in_grid. simpl. lia.
Defined.

(** ** The filter as a function on sequences *)

(** The cases of [discard_triples], with what it returns. *)
Lemma discard_triples_cases (P : list Z -> list Z -> Prop) :
  P [] [] ->
  (forall a, P [a] [a]) ->
  (forall a b, P [a; b] [a; b]) ->
  (forall a rest,
      P rest (discard_triples rest) ->
      P (a :: a :: a :: rest) (discard_triples rest)) ->
  (forall a b c rest,
      (a =? b) && (a =? c) = false ->
      P (b :: c :: rest) (discard_triples (b :: c :: rest)) ->
      P (a :: b :: c :: rest) (a :: discard_triples (b :: c :: rest))) ->
  forall l, P l (discard_triples l).
Proof.
  intros Hnil Hone Htwo Htriple Hkeep l.
  remember (length l) as n eqn:Hn.
  assert (Hle : (length l <= n)%nat) by lia. clear Hn.
  revert l Hle. induction n as [|n IH]; intros l Hle.
  - destruct l; [exact Hnil | simpl in Hle; lia].
  - destruct l as [|a [|b [|c rest]]];
      [exact Hnil | apply Hone | apply Htwo |].
    rewrite discard_triples_eq.
    destruct ((a =? b) && (a =? c)) eqn:Habc.
    + apply andb_true_iff in Habc. destruct Habc as [Hab Hac].
      apply Z.eqb_eq in Hab, Hac. subst b c.
      apply Htriple, IH. simpl in Hle. lia.
    + apply Hkeep; [exact Habc|]. apply IH. simpl in Hle |- *. lia.
Qed.

Lemma subsequence_refl (l : list Z) : subsequence l l.
Proof. induction l; constructor; assumption. Qed.

Lemma discard_triples_subsequence (l : list Z) :
  subsequence (discard_triples l) l.
Proof.
  apply (discard_triples_cases (fun l d => subsequence d l)).
  - constructor.
  - intros a. apply subsequence_refl.
  - intros a b. apply subsequence_refl.
  - intros a rest H. repeat apply subsequence_skip. exact H.
  - intros a b c rest _ H. apply subsequence_keep. exact H.
Qed.

Lemma discard_triples_length (l : list Z) :
  exists k, length l = (length (discard_triples l) + 3 * k)%nat.
Proof.
  apply (discard_triples_cases
           (fun l d => exists k, length l = (length d + 3 * k)%nat)).
  - exists O. reflexivity.
  - intros a. exists O. reflexivity.
  - intros a b. exists O. reflexivity.
  - intros a rest [k Hk]. exists (S k). simpl. lia.
  - intros a b c rest _ [k Hk]. exists k. simpl in *. lia.
Qed.

Lemma discard_triples_no_triple (l : list Z) :
  has_triple l = false -> discard_triples l = l.
Proof.
  apply (discard_triples_cases (fun l d => has_triple l = false -> d = l));
    try reflexivity.
  - intros a rest _ H. cbn [has_triple] in H.
    rewrite Z.eqb_refl in H. discriminate H.
  - intros a b c rest Habc IH H.
    change (has_triple (a :: b :: c :: rest))
      with (((a =? b) && (a =? c)) || has_triple (b :: c :: rest)) in H.
    rewrite Habc in H. cbn [orb] in H. rewrite (IH H). reflexivity.
Qed.

Lemma discard_triples_with_triple (l : list Z) :
  has_triple l = true -> (length (discard_triples l) < length l)%nat.
Proof.
  apply (discard_triples_cases
           (fun l d => has_triple l = true -> (length d < length l)%nat));
    try discriminate.
  - intros a rest _ _.
    destruct (discard_triples_length rest) as [k Hk]. simpl. lia.
  - intros a b c rest Habc IH H.
    change (has_triple (a :: b :: c :: rest))
      with (((a =? b) && (a =? c)) || has_triple (b :: c :: rest)) in H.
    rewrite Habc in H. cbn [orb] in H. specialize (IH H). simpl in *. lia.
Qed.

(** X6. The filter only leaves moves out, three at a time: the moves
    that reach [update_player] are a subsequence of the decoded moves,
    in the same order, and the number left out is a multiple of 3. *)
Theorem filter_leaves_out_triples (moves : list Z) :
  Forall move_code moves ->
  subsequence (effective_moves moves) moves
  /\ exists k, length moves = (length (effective_moves moves) + 3 * k)%nat.
Proof.
  intros H. rewrite (effective_moves_rule moves H).
  split; [apply discard_triples_subsequence | apply discard_triples_length].
Qed.

Lemma filter_leaves_out_triples_witness :
  subsequence (effective_moves [3; 1; 1; 1; 2; 2]) [3; 1; 1; 1; 2; 2]
  /\ exists k, length [3; 1; 1; 1; 2; 2]%Z
               = (length (effective_moves [3; 1; 1; 1; 2; 2]%Z) + 3 * k)%nat.
Proof.
  apply (filter_leaves_out_triples [3; 1; 1; 1; 2; 2]).
  repeat (apply move_code_cons; [unfold is_char; lia | lia |]).
  apply Forall_nil.
Defined.

(** X7. The filter changes the sequence of moves exactly when three
    consecutive identical codes occur in it: without such a triple every
    decoded move is applied, in order; with one, fewer moves are applied
    than were decoded. *)
Theorem filter_is_identity_without_triple (moves : list Z) :
  Forall move_code moves ->
  (has_triple moves = false -> effective_moves moves = moves)
  /\ (has_triple moves = true ->
      (length (effective_moves moves) < length moves)%nat).
Proof.
  intros H. rewrite (effective_moves_rule moves H).
  split; [apply discard_triples_no_triple | apply discard_triples_with_triple].
Qed.

Lemma filter_is_identity_without_triple_witness :
  (has_triple [1; 2; 1; 1; 3; 3] = false ->
   effective_moves [1; 2; 1; 1; 3; 3] = [1; 2; 1; 1; 3; 3])
  /\ (has_triple [1; 2; 1; 1; 3; 3] = true ->
      (length (effective_moves [1; 2; 1; 1; 3; 3]%Z)
       < length [1; 2; 1; 1; 3; 3]%Z)%nat).
Proof.
  apply (filter_is_identity_without_triple [1; 2; 1; 1; 3; 3]).
  repeat (apply move_code_cons; [unfold is_char; lia | lia |]).
  apply Forall_nil.
Defined.

Lemma present_Forall (P : Z -> Prop) (l : list Z) :
  Forall (fun c => c = NO_MOVE \/ P c) l ->
  Forall (fun c => P c /\ c <> NO_MOVE) (present l).
Proof.
  intros H. unfold present. apply Forall_forall. intros c Hc.
  apply filter_In in Hc. destruct Hc as [Hin Hne].
  rewrite Forall_forall in H. specialize (H c Hin).
  destruct (Z.eqb_spec c NO_MOVE) as [Heq | Hneq]; [discriminate Hne|].
  destruct H as [H | H]; [contradiction | split; assumption].
Qed.

(** Whatever holds of the moves received holds of the slots that hold
    a move and of the moves applied. *)
Lemma process_moves_preserves (P : Z -> Prop) (l : list Z) :
  forall s,
    well_formed s -> Forall is_char l -> Forall P l ->
    Forall (fun c => c = NO_MOVE \/ P c) (window s) ->
    Forall (fun c => P c /\ c <> NO_MOVE) (applied s) ->
    Forall (fun c => c = NO_MOVE \/ P c) (window (process_moves s l))
    /\ Forall (fun c => P c /\ c <> NO_MOVE) (applied (process_moves s l)).
Proof.
  induction l as [|m l IH]; intros s Hwf Hch HP Hw Hap; [split; assumption|].
  inversion Hch as [|? ? Hm Hch']; subst.
  inversion HP as [|? ? HPm HP']; subst.
  change (process_moves s (m :: l)) with (process_moves (loop_body s m) l).
  destruct (window_shape s) as (a & b & c & Habc).
  destruct (loop_body_window s m a b c Hwf Hm Habc)
    as (Hwf' & Hw' & Hap' & _).
  rewrite Habc in Hw.
  inversion Hw as [|? ? Ha Hw1]; subst.
  inversion Hw1 as [|? ? Hb Hw2]; subst.
  inversion Hw2 as [|? ? Hc _]; subst.
  apply IH; try assumption.
  - rewrite Hw'. destruct ((b =? c) && (c =? m)).
    + repeat (apply Forall_cons; [left; reflexivity|]). apply Forall_nil.
    + repeat (apply Forall_cons; [assumption || (right; assumption)|]).
      apply Forall_nil.
  - rewrite Hap'. apply Forall_app. split; [assumption|].
    apply present_Forall. apply Forall_cons; [assumption | apply Forall_nil].
Qed.

(** X8. The filter invents no move: whatever holds of every decoded
    move holds of every move that reaches [update_player], and the
    no-move marker [-1] never reaches [update_player]. *)
Theorem filter_invents_no_move (P : Z -> Prop) (moves : list Z) :
  Forall is_char moves -> Forall P moves ->
  Forall (fun c => P c /\ c <> NO_MOVE) (effective_moves moves).
Proof.
  intros Hch HP. unfold effective_moves, run_moves.
  pose proof (process_moves_well_formed moves _ well_formed_initial Hch) as Hwf.
  destruct (process_moves_preserves P moves initial_state) as [Hw Hap];
    try assumption.
  - apply well_formed_initial.
  - repeat (apply Forall_cons; [left; reflexivity|]). apply Forall_nil.
  - apply Forall_nil.
  - destruct (window_shape (process_moves initial_state moves))
      as (a & b & c & Habc).
    destruct (flush_window _ a b c Hwf Habc) as (Hfl & _).
    rewrite Hfl. apply Forall_app. split; [exact Hap|].
    apply present_Forall. rewrite <- Habc. exact Hw.
Qed.

Lemma filter_invents_no_move_witness :
  Forall (fun c => In c [3; -1; 1; -1; -1; 2] /\ c <> NO_MOVE)
         (effective_moves [3; -1; 1; -1; -1; 2]).
Proof.
  apply (filter_invents_no_move (fun c => In c [3; -1; 1; -1; -1; 2])
                                [3; -1; 1; -1; -1; 2]).
  - repeat (apply Forall_cons; [unfold is_char; lia|]). apply Forall_nil.
  - apply Forall_forall. intros c Hc. exact Hc.
Defined.

(** ** The array [prev_moves] and its cursor *)

Lemma list_set_length (a : list Z) (n : nat) (v : Z) :
  length (list_set a n v) = length a.
Proof.
  revert n. induction a as [|h t IH]; intros [|n]; simpl;
    try reflexivity. rewrite IH. reflexivity.
Qed.

Lemma next_cursor (i : Z) :
  0 <= i < 3 -> Z.rem (int_add i 1) 3 = (i + 1) mod 3 /\ 0 <= (i + 1) mod 3 < 3.
Proof.
  intros H.
  assert (Hi : i = 0 \/ i = 1 \/ i = 2) by lia.
  destruct Hi as [-> | [-> | ->]]; split; try reflexivity;
    apply Z.mod_pos_bound; lia.
Qed.

Lemma loop_body_cursor (s : sim_state) (m : Z) :
  prev_idx (loop_body s m) = Z.rem (int_add (prev_idx s) 1) 3
  /\ length (prev_moves (loop_body s m)) = length (prev_moves s).
Proof.
  unfold loop_body.
  destruct (negb (char_of_int (array_get (prev_moves s) (prev_idx s)) =? -1));
    cbn [prev_idx prev_moves call_update_player];
    (split; [reflexivity|]);
    destruct (three_in_a_row (array_set (prev_moves s) (prev_idx s) m));
    unfold array_set; rewrite ?list_set_length; reflexivity.
Qed.

Lemma flush_step_cursor (s : sim_state) :
  prev_idx (flush_step s) = Z.rem (int_add (prev_idx s) 1) 3
  /\ prev_moves (flush_step s) = prev_moves s.
Proof.
  unfold flush_step.
  destruct (negb (char_of_int (array_get (prev_moves s) (prev_idx s)) =? -1));
    cbn [prev_idx prev_moves call_update_player]; split; reflexivity.
Qed.

Lemma process_moves_cursor (l : list Z) :
  forall s,
    0 <= prev_idx s < 3 ->
    prev_idx (process_moves s l) = (prev_idx s + Z.of_nat (length l)) mod 3
    /\ length (prev_moves (process_moves s l)) = length (prev_moves s).
Proof.
  induction l as [|m l IH]; intros s Hs.
  - cbn [process_moves fold_left length Z.of_nat].
    rewrite Z.add_0_r, Z.mod_small by lia. split; reflexivity.
  - change (process_moves s (m :: l)) with (process_moves (loop_body s m) l).
    destruct (loop_body_cursor s m) as [Hc Hl].
    destruct (next_cursor (prev_idx s) Hs) as [Hn Hr].
    rewrite Hn in Hc.
    destruct (IH (loop_body s m)) as [IHc IHl]; [rewrite Hc; exact Hr|].
    rewrite IHc, IHl, Hc, Hl. split; [|reflexivity].
    rewrite Zplus_mod_idemp_l. f_equal.
    change (length (m :: l)) with (S (length l)). lia.
Qed.

(** X9. Whatever the moves, [prev_moves] keeps its three slots and the
    cursor stays inside it: after [n] moves the cursor is [n mod 3], and
    the final loop, which goes round once, writes no slot and brings the
    cursor back to where it was. *)
Theorem cursor_stays_inside_array (moves : list Z) :
  length (prev_moves (process_moves initial_state moves)) = 3%nat
  /\ prev_idx (process_moves initial_state moves)
     = Z.of_nat (length moves) mod 3
  /\ 0 <= prev_idx (process_moves initial_state moves) < 3
  /\ prev_moves (run_moves moves)
     = prev_moves (process_moves initial_state moves)
  /\ prev_idx (run_moves moves) = prev_idx (process_moves initial_state moves).
Proof.
  destruct (process_moves_cursor moves initial_state) as [Hc Hl];
    [simpl; lia|].
  cbn [prev_idx initial_state] in Hc. rewrite Z.add_0_l in Hc.
  assert (Hr : 0 <= prev_idx (process_moves initial_state moves) < 3)
    by (rewrite Hc; apply Z.mod_pos_bound; lia).
  repeat split; try assumption; try apply Hr.
  - unfold run_moves, flush, for_loop.
    repeat match goal with
           | |- context [flush_step ?t] =>
             rewrite (proj2 (flush_step_cursor t))
           end.
    reflexivity.
  - unfold run_moves, flush, for_loop.
    set (s0 := process_moves initial_state moves) in *.
    rewrite (proj1 (flush_step_cursor _)), (proj1 (flush_step_cursor _)),
      (proj1 (flush_step_cursor s0)).
    assert (Hi : prev_idx s0 = 0 \/ prev_idx s0 = 1 \/ prev_idx s0 = 2) by lia.
    destruct Hi as [-> | [-> | ->]]; reflexivity.
Qed.

(** X10. Between two passes of the loop the array never holds a
    completed triple: when its three slots are equal they are empty. *)
Theorem no_triple_stays_in_window (moves : list Z) :
  Forall is_char moves ->
  three_in_a_row (prev_moves (process_moves initial_state moves)) = true ->
  prev_moves (process_moves initial_state moves)
  = [NO_MOVE; NO_MOVE; NO_MOVE].
Proof.
  induction moves as [|m l _] using rev_ind; intros Hch.
  - intros _. reflexivity.
  - apply Forall_app in Hch. destruct Hch as [Hl Hm].
    inversion Hm as [|? ? Hmc _]; subst.
    unfold process_moves. rewrite fold_left_app. cbn [fold_left].
    fold (process_moves initial_state l).
    pose proof (process_moves_well_formed l _ well_formed_initial Hl) as Hwf.
    destruct (window_shape (process_moves initial_state l))
      as (a & b & c & Habc).
    destruct (loop_body_window _ m a b c Hwf Hmc Habc)
      as (_ & _ & _ & _ & Ht & Hpm).
    rewrite Hpm. destruct ((b =? c) && (c =? m)); [reflexivity|].
    rewrite Ht. discriminate.
Qed.

Lemma no_triple_stays_in_window_witness :
  prev_moves (process_moves initial_state [3; 2; 2; 2])
  = [NO_MOVE; NO_MOVE; NO_MOVE].
Proof.
  apply (no_triple_stays_in_window [3; 2; 2; 2]).
  - repeat (apply Forall_cons; [unfold is_char; lia|]). apply Forall_nil.
  - reflexivity.
Defined.

Lemma move_codes_are_chars (l : list Z) :
  Forall move_code l -> Forall is_char l.
Proof. apply Forall_impl. intros c [Hc _]. exact Hc. Qed.

(** X11. The position at the end is the start position (0,4) moved by
    the moves that the triple-discard rule keeps, applied in order. *)
Theorem final_position_by_rule (moves : list Z) :
  Forall move_code moves ->
  player (run_moves moves)
  = fold_left update_player (discard_triples moves) {| x := 0; y := 4 |}.
Proof.
  intros H.
  rewrite (run_moves_player moves (move_codes_are_chars moves H)).
  rewrite (effective_moves_rule moves H). reflexivity.
Qed.

Lemma final_position_by_rule_witness :
  player (run_moves [3; 3; 1; 1; 1; 2])
  = fold_left update_player (discard_triples [3; 3; 1; 1; 1; 2])
              {| x := 0; y := 4 |}.
Proof.
  apply (final_position_by_rule [3; 3; 1; 1; 1; 2]).
  repeat (apply move_code_cons; [unfold is_char; lia | lia |]).
  apply Forall_nil.
Defined.

(** X12. When the input ends the window holds, behind its empty slots,
    the last moves received in the order of their arrival: at most
    three, and a suffix of the input. *)
Theorem window_holds_latest_moves (moves : list Z) :
  Forall move_code moves ->
  exists q pre,
    window (process_moves initial_state moves) = padded q
    /\ (length q <= 3)%nat
    /\ moves = pre ++ q.
Proof.
  intros H.
  destruct (window_in_arrival_order moves initial_state [])
    as (q & pre & Hw & Hlen & Heq);
    try assumption; try reflexivity.
  - apply well_formed_initial.
  - simpl. lia.
  - apply Forall_nil.
  - exists q, pre. repeat split; assumption.
Qed.

Lemma window_holds_latest_moves_witness :
  exists q pre,
    window (process_moves initial_state [3; 1; 1; 1; 2; 4]) = padded q
    /\ (length q <= 3)%nat
    /\ [3; 1; 1; 1; 2; 4] = pre ++ q.
Proof.
  apply (window_holds_latest_moves [3; 1; 1; 1; 2; 4]).
  repeat (apply move_code_cons; [unfold is_char; lia | lia |]).
  apply Forall_nil.
Defined.

(** ** The scanner and [main] as a whole *)

Section ScannerFurther.

Variable YAHDLC_FLAG_SEQUENCE : Z.
Variable yahdlc_control_t : Type.
Variable frame : yahdlc_control_t -> Z.
Variable yahdlc_state : Type.
Variable yahdlc_get_data :
  yahdlc_state -> yahdlc_control_t -> list Z -> Z -> list Z -> Z ->
  get_data_result yahdlc_control_t yahdlc_state.

Local Abbreviation decode := (decode_span yahdlc_control_t yahdlc_state yahdlc_get_data).
Local Abbreviation scan :=
  (next_move_loop YAHDLC_FLAG_SEQUENCE yahdlc_control_t frame yahdlc_state
                  yahdlc_get_data).
Local Abbreviation pull :=
  (next_move YAHDLC_FLAG_SEQUENCE yahdlc_control_t frame yahdlc_state
             yahdlc_get_data).
Local Abbreviation drive :=
  (main_loop YAHDLC_FLAG_SEQUENCE yahdlc_control_t frame yahdlc_state
             yahdlc_get_data).
Local Abbreviation yielded :=
  (decoded_moves YAHDLC_FLAG_SEQUENCE yahdlc_control_t frame yahdlc_state
                 yahdlc_get_data).
Local Abbreviation program :=
  (main YAHDLC_FLAG_SEQUENCE yahdlc_control_t frame yahdlc_state
        yahdlc_get_data).
Local Abbreviation World := (world yahdlc_control_t yahdlc_state).

(** The number of calls of the decoder between two worlds. *)
Local Abbreviation calls w w' :=
  (Z.of_nat (length (decodes w')) - Z.of_nat (length (decodes w))).

(** What the loop of [next_move] leaves behind. *)
Lemma scan_contract (fuel : nat) :
  forall (iter : move_iterator_t) (w : World),
    iter_ok iter ->
    (Z.to_nat (data_len iter - end_ iter) < fuel)%nat ->
    match scan fuel iter w with
    | Returned (run, iter', w') =>
      iter_ok iter'
      /\ data iter' = data iter /\ data_len iter' = data_len iter
      /\ 0 <= calls w w'
      /\ end_ iter + 2 * calls w w' <= end_ iter'
      /\ ((run = 0 /\ data_len iter <= end_ iter')
          \/ (run = 1 /\ start iter' = end_ iter' - 1
              /\ 1 <= calls w w' /\ frame (control w') = 0))
    | Exited status _ _ => status = 1
    | Out_of_fuel => False
    end.
Proof.
  induction fuel as [|fuel IH]; intros iter w Hok Hfuel; [lia|].
  destruct (Z.lt_ge_cases (end_ iter) (data_len iter)) as [Hin|Hout].
  - destruct (Z.eq_dec (array_get (data iter) (end_ iter)) YAHDLC_FLAG_SEQUENCE)
      as [Hflag|Hflag].
    + destruct (Z.lt_ge_cases (ret (decode iter w)) 0) as [Hneg|Hpos].
      * rewrite scan_failed_decode by assumption. reflexivity.
      * rewrite scan_decoded by assumption. cbv zeta.
        destruct (Z.eqb_spec (frame (control_out (decode iter w))) 0)
          as [Hdata|Hctl]; cbn [negb].
        -- unfold iter_ok in *.
           cbn [advance start end_ data data_len decodes control].
           rewrite length_app. cbn [length].
           repeat split; lia.
        -- match goal with
           | |- context [scan fuel ?it ?wd] =>
             pose proof (IH it wd) as Hrec;
             destruct (scan fuel it wd) as [[[run iter'] w']|status out log|]
           end.
           ++ destruct Hrec as (Hok' & Hdat & Hlen & Hc0 & Hend & Hrun).
              ** unfold iter_ok in *. cbn [advance end_ data_len]. lia.
              ** cbn [advance end_ data_len]. lia.
              ** cbn [advance end_ data data_len decodes] in *.
                 rewrite length_app in *. cbn [length] in *.
                 split; [exact Hok'|]. split; [exact Hdat|].
                 split; [exact Hlen|]. split; [lia|]. split; [lia|].
                 destruct Hrun as [(H0 & Hb)|(H1 & Hs & Hc & Hf)];
                   [left; split; assumption|].
                 right. repeat split; try assumption; lia.
           ++ apply Hrec.
              ** unfold iter_ok in *. cbn [advance end_ data_len]. lia.
              ** cbn [advance end_ data_len]. lia.
           ++ apply Hrec.
              ** unfold iter_ok in *. cbn [advance end_ data_len]. lia.
              ** cbn [advance end_ data_len]. lia.
    + rewrite scan_no_flag by assumption.
      match goal with
      | |- context [scan fuel ?it ?wd] =>
        pose proof (IH it wd) as Hrec;
        destruct (scan fuel it wd) as [[[run iter'] w']|status out log|]
      end.
      * destruct Hrec as (Hok' & Hdat & Hlen & Hc0 & Hend & Hrun).
        -- unfold iter_ok in *. cbn [advance end_ data_len]. lia.
        -- cbn [advance end_ data_len]. lia.
        -- cbn [advance end_ data data_len] in *.
           split; [exact Hok'|]. split; [exact Hdat|].
           split; [exact Hlen|]. split; [lia|]. split; [lia|]. exact Hrun.
      * apply Hrec.
        -- unfold iter_ok in *. cbn [advance end_ data_len]. lia.
        -- cbn [advance end_ data_len]. lia.
      * apply Hrec.
        -- unfold iter_ok in *. cbn [advance end_ data_len]. lia.
        -- cbn [advance end_ data_len]. lia.
  - rewrite scan_behind_buffer by assumption.
    split; [exact Hok|]. repeat (split; [reflexivity || lia|]).
    left. split; [reflexivity | lia].
Qed.

Lemma pull_contract (iter : move_iterator_t) (w : World) :
  iter_ok iter ->
  match pull iter w with
  | Returned (run, iter', w') =>
    iter_ok iter'
    /\ data iter' = data iter /\ data_len iter' = data_len iter
    /\ 0 <= calls w w'
    /\ end_ iter + 2 * calls w w' <= end_ iter'
    /\ ((run = 0 /\ data_len iter <= end_ iter')
        \/ (run = 1 /\ start iter' = end_ iter' - 1
            /\ 1 <= calls w w' /\ frame (control w') = 0))
  | Exited status _ _ => status = 1
  | Out_of_fuel => False
  end.
Proof.
  intros Hok. unfold next_move. apply scan_contract; [exact Hok|].
  unfold iter_ok in Hok. lia.
Qed.

(** X13. What a call of [next_move] leaves behind. It returns 0 or 1
    unless it exits with status 1; it never writes the buffer nor its
    length; [end] moves forward by at least two bytes for every call of
    the decoder and stays within one byte of the end of the buffer. When
    it returns 0 the cursor is at or behind the end of the buffer; when
    it returns 1 the decoder has been called, the last frame is a data
    frame and [start] is the byte before [end]. *)
Theorem next_move_contract (iter : move_iterator_t) (w : World) :
  iter_ok iter ->
  match pull iter w with
  | Returned (run, iter', w') =>
    iter_ok iter'
    /\ data iter' = data iter /\ data_len iter' = data_len iter
    /\ 0 <= calls w w'
    /\ end_ iter + 2 * calls w w' <= end_ iter'
    /\ ((run = 0 /\ data_len iter <= end_ iter')
        \/ (run = 1 /\ start iter' = end_ iter' - 1
            /\ 1 <= calls w w' /\ frame (control w') = 0))
  | Exited status _ _ => status = 1
  | Out_of_fuel => False
  end.
Proof. apply pull_contract. Qed.

(** X14. An iterator that is empty stays empty: once [next_move] has
    returned 0, calling it again returns 0 and changes nothing. *)
Theorem empty_iterator_stays_empty
        (iter iter' : move_iterator_t) (w w' : World) :
  iter_ok iter ->
  pull iter w = Returned (0, iter', w') ->
  pull iter' w' = Returned (0, iter', w').
Proof.
  intros Hok Hpull.
  pose proof (pull_contract iter w Hok) as Hc. rewrite Hpull in Hc.
  destruct Hc as (Hok' & _ & Hlen & _ & _ & [[_ Hend] | [Habs _]]);
    [|discriminate Habs].
  unfold next_move. apply scan_behind_buffer; [exact Hok'|]. lia.
Qed.

(** The loop of [main], seen from the moves it receives. *)
Lemma yielded_contract (fuel : nat) :
  forall (iter iter' : move_iterator_t) (w w' : World) (moves : list Z),
    iter_ok iter ->
    yielded fuel iter w = Returned (moves, iter', w') ->
    iter_ok iter' /\ data_len iter' = data_len iter
    /\ Z.of_nat (length moves) <= calls w w'
    /\ end_ iter + 2 * calls w w' <= end_ iter'.
Proof.
  induction fuel as [|fuel IH]; intros iter iter' w w' moves Hok Hy;
    cbn [decoded_moves] in Hy; [discriminate Hy|].
  pose proof (pull_contract iter w Hok) as Hc.
  destruct (pull iter w) as [[[run iter1] w1]|status out log|];
    [|discriminate Hy|discriminate Hy].
  destruct Hc as (Hok1 & _ & Hlen1 & Hc0 & Hend1 & Hrun).
  destruct Hrun as [[-> _] | (-> & _ & Hc1 & _)]; cbn [Z.eqb] in Hy.
  - injection Hy as <- <- <-. cbn [length Z.of_nat].
    split; [exact Hok1|]. split; [exact Hlen1|]. lia.
  - match type of Hy with
    | context [yielded fuel ?it ?wd] =>
      pose proof (IH it) as Hrec;
      destruct (yielded fuel it wd) as [[[ms iter2] w2]|status out log|]
        eqn:Hy2
    end; try discriminate Hy.
    injection Hy as <- <- <-.
    destruct (Hrec iter2 w1 w2 ms) as (Hok2 & Hlen2 & Hms & Hend2);
      [exact Hok1 | exact Hy2 |].
    cbn [advance end_ data_len] in *.
    change (length (array_get (output iter1) 0 :: ms)) with (S (length ms)).
    split; [exact Hok2|]. split; [lia|]. lia.
Qed.

(** X15. No more moves than half the bytes: every move that [main]
    receives comes from a call of the decoder of its own, and every
    call of the decoder uses up at least two bytes of the log. *)
Theorem moves_bounded_by_buffer
        (buffer output_buffer : list Z)
        (control0 : yahdlc_control_t) (lib0 : yahdlc_state)
        (moves : list Z) (iter' : move_iterator_t) (w' : World) :
  Z.of_nat (length buffer) <= INT_MAX - 1 ->
  yielded (S (length buffer))
          {| start := 0; end_ := 1; data := buffer;
             data_len := to_uint (Z.of_nat (length buffer));
             output := output_buffer; output_len := 0 |}
          {| control := control0; lib_state := lib0; decodes := [] |}
  = Returned (moves, iter', w') ->
  (length moves <= length (decodes w'))%nat
  /\ (2 * length (decodes w') <= length buffer)%nat.
Proof.
  intros Hlen Hy.
  destruct (yielded_contract _ _ _ _ _ _ (iter_ok_initial _ output_buffer Hlen) Hy)
    as (Hok & Hdl & Hms & Hend).
  unfold iter_ok in Hok. rewrite Hdl in Hok. cbn [end_ data_len decodes length] in *.
  rewrite to_uint_small in Hok by (unfold INT_MAX in Hlen; lia).
  lia.
Qed.

(** X16. When every frame decodes, the printed position is the start
    position (0,4) moved by what the triple-discard rule keeps of the
    moves that the iterator yields, applied in order. *)
Theorem main_prints_filtered_position
        (buffer output_buffer : list Z)
        (control0 : yahdlc_control_t) (lib0 : yahdlc_state)
        (moves : list Z) (iter' : move_iterator_t) (w' : World) :
  yielded (S (length buffer))
          {| start := 0; end_ := 1; data := buffer;
             data_len := to_uint (Z.of_nat (length buffer));
             output := output_buffer; output_len := 0 |}
          {| control := control0; lib_state := lib0; decodes := [] |}
  = Returned (moves, iter', w') ->
  Forall move_code moves ->
  option_map (fun t => (exit_status t, stdout t))
             (program buffer output_buffer control0 lib0)
  = Some (0,
          [Print_player_position
             (x (fold_left update_player (discard_triples moves)
                           {| x := 0; y := 4 |}))
             (y (fold_left update_player (discard_triples moves)
                           {| x := 0; y := 4 |}))]).
Proof.
  intros Hy Hm.
  rewrite (program_prints_run_position
             YAHDLC_FLAG_SEQUENCE yahdlc_control_t frame yahdlc_state
             yahdlc_get_data buffer output_buffer control0 lib0
             moves iter' w' Hy).
  cbn [option_map exit_status stdout].
  rewrite (run_moves_player moves (move_codes_are_chars moves Hm)).
  rewrite (effective_moves_rule moves Hm). reflexivity.
Qed.

(** Bytes that are not the flag are stepped over without a call of the
    decoder. *)
Lemma scan_without_flag (fuel : nat) :
  forall (iter : move_iterator_t) (w : World),
    iter_ok iter ->
    data_len iter = Z.of_nat (length (data iter)) ->
    no_flag_from YAHDLC_FLAG_SEQUENCE (data iter) (end_ iter) ->
    (Z.to_nat (data_len iter - end_ iter) < fuel)%nat ->
    exists iter', scan fuel iter w = Returned (0, iter', w).
Proof.
  induction fuel as [|fuel IH]; intros iter w Hok Hlen Hnf Hfuel; [lia|].
  destruct (Z.lt_ge_cases (end_ iter) (data_len iter)) as [Hin|Hout].
  - rewrite scan_no_flag; try assumption.
    + apply IH.
      * unfold iter_ok in *. cbn [advance end_ data_len]. lia.
      * exact Hlen.
      * cbn [advance end_ data]. intros i Hi. apply Hnf. lia.
      * cbn [advance end_ data_len]. lia.
    + apply Hnf. unfold iter_ok in Hok. lia.
  - exists iter. apply scan_behind_buffer; assumption.
Qed.

(** X17. A log in which no byte after the first one is the flag, the
    empty log among them, gives no move: the decoder is never called
    and the position printed is the start position (0,4). The first
    byte of the log is never compared with the flag. *)
Theorem log_without_flag_gives_no_move
        (buffer output_buffer : list Z)
        (control0 : yahdlc_control_t) (lib0 : yahdlc_state) :
  Z.of_nat (length buffer) <= INT_MAX - 1 ->
  no_flag_from YAHDLC_FLAG_SEQUENCE buffer 1 ->
  program buffer output_buffer control0 lib0
  = Some {| exit_status := 0;
            stdout := [Print_player_position 0 4];
            decode_log := [];
            final_state := Some (flush initial_state) |}.
Proof.
  intros Hlen Hnf. unfold main. cbn [main_loop]. unfold next_move.
  match goal with
  | |- context [scan ?f ?it ?wd] =>
    destruct (scan_without_flag f it wd) as [iter' Hscan]
  end.
  - apply iter_ok_initial. exact Hlen.
  - cbn [data data_len]. apply to_uint_small. unfold INT_MAX in Hlen. lia.
  - exact Hnf.
  - cbn [data_len end_]. lia.
  - rewrite Hscan. reflexivity.
Qed.

(** X18. [main] always ends, in one of two ways and with one line of
    output: with status 0 and a position of the board, or with status 1
    and the error of the decoder. *)
Theorem main_ends_with_one_line
        (buffer output_buffer : list Z)
        (control0 : yahdlc_control_t) (lib0 : yahdlc_state) :
  Z.of_nat (length buffer) <= INT_MAX - 1 ->
  exists t,
    program buffer output_buffer control0 lib0 = Some t
    /\ ((exit_status t = 0
         /\ exists px py,
             stdout t = [Print_player_position px py]
             /\ 0 <= px <= 4 /\ 0 <= py <= 4)
        \/ (exit_status t = 1
            /\ exists r, r < 0 /\ stdout t = [Print_yahdlc_error r])).
Proof.
  intros Hlen.
  pose proof (program_total YAHDLC_FLAG_SEQUENCE yahdlc_control_t frame
                yahdlc_state yahdlc_get_data
                buffer output_buffer control0 lib0 Hlen) as Htot.
  destruct (program buffer output_buffer control0 lib0) as [t|] eqn:Hp;
    [|contradiction].
  exists t. split; [reflexivity|].
  pose proof (program_position_in_grid
                YAHDLC_FLAG_SEQUENCE yahdlc_control_t frame
                yahdlc_state yahdlc_get_data
                buffer output_buffer control0 lib0 t) as Hgrid.
  specialize (fun px py => Hgrid px py Hp).
  revert Hp. unfold main.
  match goal with
  | |- context [drive ?f ?it ?wd ?st] =>
    pose proof (drive_log YAHDLC_FLAG_SEQUENCE yahdlc_control_t frame
                  yahdlc_state yahdlc_get_data f it wd st) as Hlog;
    destruct (drive f it wd st) as [[[s iter'] w']|status out log|]
  end; [| |discriminate].
  - cbv zeta. generalize (flush s). intros s' [= <-].
    cbn [exit_status stdout] in *. left. split; [reflexivity|].
    eexists. eexists. split; [reflexivity|].
    apply Hgrid. left. reflexivity.
  - intros [= <-]. cbn [exit_status stdout] in *. right.
    destruct Hlog as (-> & r & pre & Hneg & -> & _); [constructor|].
    split; [reflexivity|]. exists r. split; [exact Hneg | reflexivity].
Qed.

End ScannerFurther.

Lemma next_move_contract_witness :
  match toy_next_move toy_iter toy_world with
  | Returned (run, iter', w') =>
    iter_ok iter'
    /\ data iter' = data toy_iter /\ data_len iter' = data_len toy_iter
    /\ 0 <= Z.of_nat (length (decodes w'))
            - Z.of_nat (length (decodes toy_world))
    /\ end_ toy_iter
       + 2 * (Z.of_nat (length (decodes w'))
              - Z.of_nat (length (decodes toy_world)))
       <= end_ iter'
    /\ ((run = 0 /\ data_len toy_iter <= end_ iter')
        \/ (run = 1 /\ start iter' = end_ iter' - 1
            /\ 1 <= Z.of_nat (length (decodes w'))
                    - Z.of_nat (length (decodes toy_world))
            /\ toy_kind (control w') = 0))
  | Exited status _ _ => status = 1
  | Out_of_fuel => False
  end.
Proof.
  apply (next_move_contract toy_flag Z toy_kind unit toy_get_data
                            toy_iter toy_world).
  unfold iter_ok, INT_MAX. simpl. lia.
Defined.

Lemma empty_iterator_stays_empty_witness :
  toy_next_move
    {| start := 0; end_ := 3; data := [126; 5; 6]; data_len := 3;
       output := [0; 0; 0]; output_len := 0 |} toy_world
  = Returned
      (0, {| start := 0; end_ := 3; data := [126; 5; 6]; data_len := 3;
             output := [0; 0; 0]; output_len := 0 |}, toy_world).
Proof.
  apply (empty_iterator_stays_empty
           toy_flag Z toy_kind unit toy_get_data
           {| start := 0; end_ := 1; data := [126; 5; 6]; data_len := 3;
              output := [0; 0; 0]; output_len := 0 |}
           {| start := 0; end_ := 3; data := [126; 5; 6]; data_len := 3;
              output := [0; 0; 0]; output_len := 0 |}
           toy_world toy_world).
  - unfold iter_ok, INT_MAX. simpl. lia.
  - vm_compute. reflexivity.
Defined.

Lemma moves_bounded_by_buffer_witness :
  (length [3; 1]%Z <= length [0; 0; 0]%Z)%nat
  /\ (2 * length [0; 0; 0]%Z
      <= length (toy_frame 0 3 ++ toy_frame 1 9 ++ toy_frame 0 1))%nat.
Proof.
  eapply (moves_bounded_by_buffer
            toy_flag Z toy_kind unit toy_get_data
            (toy_frame 0 3 ++ toy_frame 1 9 ++ toy_frame 0 1)
            (repeat 0 12) 0 tt [3; 1] _
            {| control := 0; lib_state := tt; decodes := [0; 0; 0] |}).
  - vm_compute. discriminate.
  - vm_compute. reflexivity.
Defined.

Lemma main_prints_filtered_position_witness :
  option_map (fun t => (exit_status t, stdout t))
             (toy_main (toy_frame 0 3 ++ toy_frame 1 9 ++ toy_frame 0 1))
  = Some (0,
          [Print_player_position
             (x (fold_left update_player (discard_triples [3; 1])
                           {| x := 0; y := 4 |}))
             (y (fold_left update_player (discard_triples [3; 1])
                           {| x := 0; y := 4 |}))]).
Proof.
  eapply (main_prints_filtered_position
            toy_flag Z toy_kind unit toy_get_data
            (toy_frame 0 3 ++ toy_frame 1 9 ++ toy_frame 0 1)
            (repeat 0 12) 0 tt [3; 1]).
  - vm_compute. reflexivity.
  - repeat (apply move_code_cons; [unfold is_char; lia | lia |]).
    apply Forall_nil.
Defined.

Lemma log_without_flag_gives_no_move_witness :
  toy_main [126; 5; 6]
  = Some {| exit_status := 0;
            stdout := [Print_player_position 0 4];
            decode_log := [];
            final_state := Some (flush initial_state) |}.
Proof.
  apply (log_without_flag_gives_no_move
           toy_flag Z toy_kind unit toy_get_data [126; 5; 6] [0; 0; 0] 0 tt).
  - vm_compute. discriminate.
  - intros i Hi. simpl in Hi.
    assert (Hc : i = 1 \/ i = 2) by lia.
    destruct Hc as [-> | ->]; vm_compute; discriminate.
Defined.

Lemma main_ends_with_one_line_witness :
  exists t,
    toy_main toy_bad_log = Some t
    /\ ((exit_status t = 0
         /\ exists px py,
             stdout t = [Print_player_position px py]
             /\ 0 <= px <= 4 /\ 0 <= py <= 4)
        \/ (exit_status t = 1
            /\ exists r, r < 0 /\ stdout t = [Print_yahdlc_error r])).
Proof.
  apply (main_ends_with_one_line
           toy_flag Z toy_kind unit toy_get_data
           toy_bad_log (repeat 0 (length toy_bad_log)) 0 tt).
  vm_compute. discriminate.
Defined.
